(** * eng-to-tel: English word -> pronunciation -> Telugu rendering

    A shallow embedding of the two programs of the repository,

      - [get_accent_word.py]  (the batch runner), and
      - [streamlit_app.py]    (the interactive form),

    together with the parts of the Python run time they rest on
    ([str.strip], [str.split], subscripting, [in], [json.loads],
    [requests.post]), and the properties of the specification stated and
    settled over that embedding.

    Conventions of the model.
      - A Python [str] is a list of Unicode code points ([list N]).
      - A value produced by [json.loads] is a [pyval]; a [dict] is an
        association list in insertion order with unique keys.
      - A [float] is kept as the decimal literal it was read from; no
        floating-point arithmetic is modelled.
      - The network is an oracle giving, for the n-th request of a run, what
        [requests.post] does with it: return a response or raise.
      - Effects are recorded in a trace of events; Python exceptions are the
        error side of a state-and-exception monad.
      - Calls to [logger] only format their arguments and write to the log
        sink; they neither raise nor influence control flow, and are left
        out of the trace, as is the set-up of the log file.  Failures of the
        file system are not modelled.
      - Exceptions outside [Exception] (a keyboard interrupt, interpreter
        exit) are not part of the model; the script-control exception of
        [st.stop] is an outcome of its own.
      - [json.loads] is modelled after CPython's scanner for strings; the
        interpreter's recursion limit and its limit on the digits of an
        [int] literal are not modelled. *)

From Stdlib Require Import String Ascii DecimalString.
From Stdlib Require Import List NArith ZArith Bool Arith Lia.
Import ListNotations.

Set Warnings "-register-all".

(* ===================================================================== *)
(** ** Python strings *)
(* ===================================================================== *)

Module PyStr.

Local Open Scope N_scope.

(** A [str]: its code points. *)
Definition pystr := list N.

(** Decoding of a UTF-8 byte sequence; used to read the literals of this
    file (a literal is stored by its bytes). *)
Fixpoint utf8_decode (bs : list N) : pystr :=
  match bs with
  | [] => []
  | b0 :: t0 =>
    if b0 <? 128 then b0 :: utf8_decode t0
    else if b0 <? 224 then
      match t0 with
      | b1 :: t1 => ((b0 - 192) * 64 + (b1 - 128)) :: utf8_decode t1
      | [] => [b0]
      end
    else if b0 <? 240 then
      match t0 with
      | b1 :: b2 :: t2 =>
        ((b0 - 224) * 4096 + (b1 - 128) * 64 + (b2 - 128)) :: utf8_decode t2
      | _ => [b0]
      end
    else
      match t0 with
      | b1 :: b2 :: b3 :: t3 =>
        ((b0 - 240) * 262144 + (b1 - 128) * 4096 + (b2 - 128) * 64 + (b3 - 128))
          :: utf8_decode t3
      | _ => [b0]
      end
  end.

(** The [str] written by a literal. *)
Definition py (s : string) : pystr :=
  utf8_decode (map N_of_ascii (list_ascii_of_string s)).

(** Characters the code names. *)
Definition ch_newline : N := 10.
Definition ch_dquote : N := 34.
Definition ch_comma : N := 44.
Definition ch_backtick : N := 96.

Definition dq : pystr := [ch_dquote].
Definition nl : pystr := [ch_newline].

(** ["..."] with the double quotes around it. *)
Definition quoted (s : pystr) : pystr := dq ++ s ++ dq.

Fixpoint pystr_eqb (a b : pystr) : bool :=
  match a, b with
  | [], [] => true
  | x :: a', y :: b' => (x =? y) && pystr_eqb a' b'
  | _, _ => false
  end.

(** [sep.join(parts)] *)
Fixpoint str_join (sep : pystr) (parts : list pystr) : pystr :=
  match parts with
  | [] => []
  | [p] => p
  | p :: rest => p ++ sep ++ str_join sep rest
  end.

(** [c.isspace()] for a single character (CPython's [_PyUnicode_IsWhitespace]):
    the characters [str.strip()] removes. *)
Definition isspace (c : N) : bool :=
  ((9 <=? c) && (c <=? 13))
  || ((28 <=? c) && (c <=? 32))
  || (c =? 133) || (c =? 160) || (c =? 5760)
  || ((8192 <=? c) && (c <=? 8202))
  || (c =? 8232) || (c =? 8233) || (c =? 8239) || (c =? 8287) || (c =? 12288).

(** [c in chars] for a character and the argument of [strip(chars)]. *)
Definition in_chars (chars : pystr) (c : N) : bool := existsb (N.eqb c) chars.

(** [lstrip]: drop the leading characters that satisfy [p]. *)
Fixpoint lstrip_by (p : N -> bool) (s : pystr) : pystr :=
  match s with
  | [] => []
  | c :: t => if p c then lstrip_by p t else s
  end.

(** [rstrip]: drop the trailing characters that satisfy [p]. *)
Definition rstrip_by (p : N -> bool) (s : pystr) : pystr :=
  rev (lstrip_by p (rev s)).

Definition strip_by (p : N -> bool) (s : pystr) : pystr :=
  rstrip_by p (lstrip_by p s).

(** [s.strip()] *)
Definition str_strip (s : pystr) : pystr := strip_by isspace s.

(** [s.strip(chars)]: [chars] is a set of characters, not a prefix or suffix. *)
Definition str_strip_chars (chars : pystr) (s : pystr) : pystr :=
  strip_by (in_chars chars) s.

(** [s.split(sep)] for a separator of one character; the result is never
    empty ([''.split(',') == ['']]). *)
Fixpoint str_split (sep : N) (s : pystr) : list pystr :=
  match s with
  | [] => [[]]
  | c :: t =>
    if c =? sep then [] :: str_split sep t
    else
      match str_split sep t with
      | p :: ps => (c :: p) :: ps
      | [] => [[c]]
      end
  end.

(** [s.startswith(p)] *)
Fixpoint startswith (p s : pystr) : bool :=
  match p, s with
  | [], _ => true
  | x :: p', y :: s' => (x =? y) && startswith p' s'
  | _ :: _, [] => false
  end.

(** [sub in s] for two strings. *)
Fixpoint str_contains (sub s : pystr) : bool :=
  startswith sub s ||
  match s with
  | [] => false
  | _ :: t => str_contains sub t
  end.

(** [bool(s)]: a string is true when it is not empty. *)
Definition str_truthy (s : pystr) : bool :=
  match s with [] => false | _ :: _ => true end.

(** [str(n)] for an [int]. *)
Definition str_of_int (z : Z) : pystr := py (NilZero.string_of_int (Z.to_int z)).

Definition str_of_nat (n : nat) : pystr := str_of_int (Z.of_nat n).

End PyStr.

(* ===================================================================== *)
(** ** Python values and exceptions *)
(* ===================================================================== *)

Module Py.

Import PyStr.

(** The values [json.loads] builds, which are also the values the programs
    build themselves (dicts of strings). *)
Inductive pyval : Type :=
| PNone
| PBool (b : bool)
| PInt (z : Z)
| PFloat (literal : pystr)
| PStr (s : pystr)
| PList (items : list pyval)
| PDict (entries : list (pystr * pyval)).

(** [d.get(k)] on the entries of a dict. *)
Fixpoint dict_get (k : pystr) (d : list (pystr * pyval)) : option pyval :=
  match d with
  | [] => None
  | (k', v) :: rest => if pystr_eqb k k' then Some v else dict_get k rest
  end.

(** [k in d] *)
Definition dict_has (k : pystr) (d : list (pystr * pyval)) : bool :=
  match dict_get k d with Some _ => true | None => false end.

(** [d[k] = v]: a key keeps the place of its first insertion. *)
Fixpoint dict_set (k : pystr) (v : pyval) (d : list (pystr * pyval))
  : list (pystr * pyval) :=
  match d with
  | [] => [(k, v)]
  | (k', v') :: rest =>
    if pystr_eqb k k' then (k, v) :: rest else (k', v') :: dict_set k v rest
  end.

(** A dict display [{k1: v1, ...}]: the entries are set from left to right. *)
Definition dict_of (kvs : list (pystr * pyval)) : pyval :=
  PDict (fold_left (fun d kv => dict_set (fst kv) (snd kv) d) kvs []).

(** The exception classes the programs can meet, as far as their [except]
    clauses tell them apart. *)
Inductive exn_class : Type :=
| RequestsTimeout          (* requests.exceptions.Timeout and subclasses *)
| RequestsConnectionError  (* requests.exceptions.ConnectionError, not a timeout *)
| RequestsJSONDecodeError  (* requests.exceptions.JSONDecodeError *)
| JSONDecodeError          (* json.JSONDecodeError *)
| KeyError
| IndexError
| TypeError
| AttributeError
| ValueError
| RecursionError
| OtherException.          (* any other subclass of Exception *)

(** An exception: its class and [str(e)].  Every class above derives from
    [Exception], so [except Exception] takes every [exn]. *)
Record exn : Type := Exn { exn_class_of : exn_class; exn_str : pystr }.

(** [isinstance(e, json.JSONDecodeError)]; requests' decode error derives
    from it. *)
Definition is_JSONDecodeError (e : exn) : bool :=
  match exn_class_of e with
  | JSONDecodeError | RequestsJSONDecodeError => true
  | _ => false
  end.

(** [type(x).__name__] *)
Definition type_name (x : pyval) : pystr :=
  match x with
  | PNone => py "NoneType"
  | PBool _ => py "bool"
  | PInt _ => py "int"
  | PFloat _ => py "float"
  | PStr _ => py "str"
  | PList _ => py "list"
  | PDict _ => py "dict"
  end.

(** [x[k]] for a string key [k] (CPython 3.12 wording of the messages). *)
Definition subscript_str (x : pyval) (k : pystr) : exn + pyval :=
  match x with
  | PDict d =>
    match dict_get k d with
    | Some v => inr v
    | None => inl (Exn KeyError (py "'" ++ k ++ py "'"))
    end
  | PList _ => inl (Exn TypeError (py "list indices must be integers or slices, not str"))
  | PStr _ => inl (Exn TypeError (py "string indices must be integers, not 'str'"))
  | _ => inl (Exn TypeError (py "'" ++ type_name x ++ py "' object is not subscriptable"))
  end.

(** [x[0]] *)
Definition subscript_zero (x : pyval) : exn + pyval :=
  match x with
  | PList (v :: _) => inr v
  | PList [] => inl (Exn IndexError (py "list index out of range"))
  | PStr (c :: _) => inr (PStr [c])
  | PStr [] => inl (Exn IndexError (py "string index out of range"))
  | PDict _ => inl (Exn KeyError (py "0"))
  | _ => inl (Exn TypeError (py "'" ++ type_name x ++ py "' object is not subscriptable"))
  end.

(** [x.strip()]: only a [str] has the method. *)
Definition method_strip (x : pyval) : exn + pystr :=
  match x with
  | PStr s => inr (str_strip s)
  | _ => inl (Exn AttributeError
                  (py "'" ++ type_name x ++ py "' object has no attribute 'strip'"))
  end.

(** [a == b] for a string [a] and any value [b]. *)
Definition str_equals (a : pystr) (b : pyval) : bool :=
  match b with
  | PStr s => pystr_eqb a s
  | _ => false
  end.

(** [k in x] for a string [k]: key membership in a dict, element membership
    in a list, substring in a string, a [TypeError] otherwise. *)
Definition contains_str (k : pystr) (x : pyval) : exn + bool :=
  match x with
  | PDict d => inr (dict_has k d)
  | PList l => inr (existsb (str_equals k) l)
  | PStr s => inr (str_contains k s)
  | _ => inl (Exn TypeError
                  (py "argument of type '" ++ type_name x ++ py "' is not iterable"))
  end.

(** [bool(os.getenv(...))]: [None] and [''] are false. *)
Definition env_truthy (v : option pystr) : bool :=
  match v with
  | Some s => str_truthy s
  | None => false
  end.

End Py.

(* ===================================================================== *)
(** ** [json.loads] *)
(* ===================================================================== *)

Module Json.

Import PyStr Py.
Local Open Scope N_scope.

(** What a scanning function gives: a value and the text after it, or the
    error message and the place (the text from there on) it is raised for.
    [ScanDepth] is the scanner running out of recursion fuel. *)
Inductive scan (A : Type) : Type :=
| Scanned (a : A) (rest : pystr)
| ScanError (msg : string) (here : pystr)
| ScanDepth.

Arguments Scanned {A} a rest.
Arguments ScanError {A} msg here.
Arguments ScanDepth {A}.

(** The decoder's whitespace: space, tab, line feed, carriage return. *)
Definition is_json_ws (c : N) : bool :=
  (c =? 32) || (c =? 9) || (c =? 10) || (c =? 13).

Definition skip_ws (s : pystr) : pystr := lstrip_by is_json_ws s.

Definition is_digit (c : N) : bool := (48 <=? c) && (c <=? 57).

Definition hexval (c : N) : option N :=
  if (48 <=? c) && (c <=? 57) then Some (c - 48)
  else if (97 <=? c) && (c <=? 102) then Some (c - 87)
  else if (65 <=? c) && (c <=? 70) then Some (c - 55)
  else None.

Definition hex4 (a b c d : N) : option N :=
  match hexval a, hexval b, hexval c, hexval d with
  | Some x, Some y, Some z, Some w => Some (((x * 16 + y) * 16 + z) * 16 + w)
  | _, _, _, _ => None
  end.

Definition is_high_surrogate (c : N) : bool := (55296 <=? c) && (c <=? 56319).
Definition is_low_surrogate (c : N) : bool := (56320 <=? c) && (c <=? 57343).
Definition join_surrogates (hi lo : N) : N :=
  65536 + (hi - 55296) * 1024 + (lo - 56320).

(** The character a one-letter escape stands for. *)
Definition unescape (c : N) : option N :=
  if c =? 34 then Some 34          (* a double quote *)
  else if c =? 92 then Some 92     (* a backslash *)
  else if c =? 47 then Some 47     (* a slash *)
  else if c =? 98 then Some 8      (* b: backspace *)
  else if c =? 102 then Some 12    (* f: form feed *)
  else if c =? 110 then Some 10    (* n: line feed *)
  else if c =? 114 then Some 13    (* r: carriage return *)
  else if c =? 116 then Some 9     (* t: tab *)
  else None.

(** [scanstring], strict: the text after an opening quote up to the closing
    one.  [start] is the text from the opening quote on; [acc] holds the
    characters read so far, last first. *)
Fixpoint scanstring (start s : pystr) (acc : pystr) {struct s} : scan pystr :=
  match s with
  | [] => ScanError "Unterminated string starting at" start
  | c :: t =>
    if c =? 34 then Scanned (rev acc) t
    else if c =? 92 then
      match t with
      | [] => ScanError "Unterminated string starting at" start
      | e :: t1 =>
        if e =? 117 then
          match t1 with
          | h1 :: h2 :: h3 :: h4 :: t2 =>
            match hex4 h1 h2 h3 h4 with
            | None => ScanError "Invalid \uXXXX escape" t
            | Some cp =>
              if is_high_surrogate cp then
                match t2 with
                | b :: u :: g1 :: g2 :: g3 :: g4 :: t3 =>
                  if (b =? 92) && (u =? 117) then
                    match hex4 g1 g2 g3 g4 with
                    | None => ScanError "Invalid \uXXXX escape" (u :: g1 :: g2 :: g3 :: g4 :: t3)
                    | Some lo =>
                      if is_low_surrogate lo
                      then scanstring start t3 (join_surrogates cp lo :: acc)
                      else scanstring start t2 (cp :: acc)
                    end
                  else scanstring start t2 (cp :: acc)
                | _ => scanstring start t2 (cp :: acc)
                end
              else scanstring start t2 (cp :: acc)
            end
          | _ => ScanError "Invalid \uXXXX escape" t
          end
        else
          match unescape e with
          | Some c' => scanstring start t1 (c' :: acc)
          | None => ScanError "Invalid \escape" s
          end
      end
    else if c <=? 31 then ScanError "Invalid control character at" s
    else scanstring start t (c :: acc)
  end.

(** The longest run of digits at the head of [s], and what follows it. *)
Fixpoint span_digits (s : pystr) : pystr * pystr :=
  match s with
  | c :: t =>
    if is_digit c then let '(ds, r) := span_digits t in (c :: ds, r) else ([], s)
  | [] => ([], [])
  end.

(** [int(digits)] for a run of decimal digits. *)
Definition int_of_digits (ds : pystr) : Z :=
  fold_left (fun acc c => (acc * 10 + Z.of_N (c - 48))%Z) ds 0%Z.

(** The fraction (a dot and digits) at the head of [s], if there is one. *)
Definition match_frac (s : pystr) : pystr * pystr :=
  match s with
  | dot :: d :: t =>
    if (dot =? 46) && is_digit d
    then let '(ds, r) := span_digits t in (dot :: d :: ds, r)
    else ([], s)
  | _ => ([], s)
  end.

(** The exponent (e or E, an optional sign, digits) at the head of [s], if
    there is one. *)
Definition match_exp (s : pystr) : pystr * pystr :=
  match s with
  | e :: t =>
    if (e =? 101) || (e =? 69) then
      let '(sign, t1) :=
        match t with
        | sg :: u => if (sg =? 45) || (sg =? 43) then ([sg], u) else ([], t)
        | [] => ([], t)
        end in
      let '(ds, r) := span_digits t1 in
      match ds with
      | [] => ([], s)
      | _ :: _ => (e :: sign ++ ds, r)
      end
    else ([], s)
  | [] => ([], s)
  end.

(** The number that starts with the digit [c] followed by [t]; [neg] tells
    whether a minus sign stood before it.  An integer becomes an [int]; with
    a fraction or an exponent the literal is a [float]. *)
Definition match_digits (neg : bool) (c : N) (t : pystr) : scan pyval :=
  let '(int_ds, r) :=
    if c =? 48 then ([c], t)
    else let '(ds, r) := span_digits t in (c :: ds, r) in
  let '(frac, r1) := match_frac r in
  let '(exp, r2) := match_exp r1 in
  match frac, exp with
  | [], [] =>
    Scanned (PInt (if neg then - int_of_digits int_ds else int_of_digits int_ds)%Z) r2
  | _, _ =>
    Scanned (PFloat ((if neg then [45] else []) ++ int_ds ++ frac ++ exp)) r2
  end.

(** A number at the head of [s]: an optional minus sign, then a zero or a
    run of digits that does not start with zero, then an optional fraction
    and an optional exponent. *)
Definition match_number (s : pystr) : scan pyval :=
  match s with
  | [] => ScanError "Expecting value" s
  | c :: t =>
    if c =? 45 then
      match t with
      | [] => ScanError "Expecting value" s
      | d :: t' => if is_digit d then match_digits true d t'
                   else ScanError "Expecting value" s
      end
    else if is_digit c then match_digits false c t
    else ScanError "Expecting value" s
  end.

(** [s] without the prefix [p], when it starts with it. *)
Fixpoint strip_prefix (p s : pystr) : option pystr :=
  match p, s with
  | [], _ => Some s
  | x :: p', y :: s' => if x =? y then strip_prefix p' s' else None
  | _ :: _, [] => None
  end.

(** The named constants, then numbers: what [scan_once] tries when the text
    opens neither a string, nor an object, nor an array. *)
Definition scan_atom (s : pystr) : scan pyval :=
  match strip_prefix (py "null") s with
  | Some r => Scanned PNone r
  | None =>
  match strip_prefix (py "true") s with
  | Some r => Scanned (PBool true) r
  | None =>
  match strip_prefix (py "false") s with
  | Some r => Scanned (PBool false) r
  | None =>
  match strip_prefix (py "NaN") s with
  | Some r => Scanned (PFloat (py "NaN")) r
  | None =>
  match strip_prefix (py "Infinity") s with
  | Some r => Scanned (PFloat (py "Infinity")) r
  | None =>
  match strip_prefix (py "-Infinity") s with
  | Some r => Scanned (PFloat (py "-Infinity")) r
  | None => match_number s
  end end end end end end.

(** [scan_once] with the object and array loops.  [fuel] bounds the depth of
    the calls. *)
Fixpoint scan_once (fuel : nat) (s : pystr) {struct fuel} : scan pyval :=
  match fuel with
  | O => ScanDepth
  | S fuel' =>
    match s with
    | [] => ScanError "Expecting value" s
    | c :: t =>
      if c =? 34 then
        match scanstring s t [] with
        | Scanned str r => Scanned (PStr str) r
        | ScanError m h => ScanError m h
        | ScanDepth => ScanDepth
        end
      else if c =? 123 then
        match skip_ws t with
        | c1 :: r => if c1 =? 125 then Scanned (PDict []) r
                     else parse_members fuel' (c1 :: r) []
        | [] => parse_members fuel' [] []
        end
      else if c =? 91 then
        match skip_ws t with
        | c1 :: r => if c1 =? 93 then Scanned (PList []) r
                     else parse_items fuel' (c1 :: r) []
        | [] => parse_items fuel' [] []
        end
      else scan_atom s
    end
  end

(** The members of an object from a key on; [acc] is the dict so far. *)
with parse_members (fuel : nat) (s : pystr) (acc : list (pystr * pyval))
       {struct fuel} : scan pyval :=
  match fuel with
  | O => ScanDepth
  | S fuel' =>
    match s with
    | [] => ScanError "Expecting property name enclosed in double quotes" s
    | c :: t =>
      if c =? 34 then
        match scanstring s t [] with
        | ScanDepth => ScanDepth
        | ScanError m h => ScanError m h
        | Scanned key r1 =>
          match skip_ws r1 with
          | [] => ScanError "Expecting ':' delimiter" []
          | c2 :: r3 =>
            if c2 =? 58 then
              match scan_once fuel' (skip_ws r3) with
              | ScanDepth => ScanDepth
              | ScanError m h => ScanError m h
              | Scanned v r5 =>
                match skip_ws r5 with
                | [] => ScanError "Expecting ',' delimiter" []
                | c3 :: r7 =>
                  if c3 =? 125 then Scanned (PDict (dict_set key v acc)) r7
                  else if c3 =? 44
                  then parse_members fuel' (skip_ws r7) (dict_set key v acc)
                  else ScanError "Expecting ',' delimiter" (c3 :: r7)
                end
              end
            else ScanError "Expecting ':' delimiter" (c2 :: r3)
          end
        end
      else ScanError "Expecting property name enclosed in double quotes" s
    end
  end

(** The items of an array from an item on; [acc] holds the items so far,
    last first. *)
with parse_items (fuel : nat) (s : pystr) (acc : list pyval)
       {struct fuel} : scan pyval :=
  match fuel with
  | O => ScanDepth
  | S fuel' =>
    match scan_once fuel' s with
    | ScanDepth => ScanDepth
    | ScanError m h => ScanError m h
    | Scanned v r1 =>
      match skip_ws r1 with
      | [] => ScanError "Expecting ',' delimiter" []
      | c :: r2 =>
        if c =? 93 then Scanned (PList (rev (v :: acc))) r2
        else if c =? 44 then parse_items fuel' (skip_ws r2) (v :: acc)
        else ScanError "Expecting ',' delimiter" (c :: r2)
      end
    end
  end.

(** The position of an error in [doc], given the text from the error on. *)
Definition error_pos (doc here : pystr) : nat :=
  (length doc - length here)%nat.

(** Line and column of position [pos] of [doc], as [JSONDecodeError] counts
    them (both from 1). *)
Fixpoint line_col (doc : pystr) (pos : nat) (line col : nat) : nat * nat :=
  match pos, doc with
  | S pos', c :: t =>
    if c =? 10 then line_col t pos' (S line) 1%nat
    else line_col t pos' line (S col)
  | _, _ => (line, col)
  end.

(** [str(JSONDecodeError(msg, doc, pos))] *)
Definition decode_error_str (msg : string) (doc here : pystr) : pystr :=
  let pos := error_pos doc here in
  let '(line, col) := line_col doc pos 1%nat 1%nat in
  py msg ++ py ": line " ++ str_of_nat line ++ py " column " ++ str_of_nat col
    ++ py " (char " ++ str_of_nat pos ++ py ")".

(** Fuel that is enough for a text: every two nested calls take a character. *)
Definition fuel_for (s : pystr) : nat := S (2 * length s).

(** [json.loads(s)] for a [str]: one value with whitespace around it.  An
    integer literal is read at any length. *)
Definition loads (s : pystr) : exn + pyval :=
  if startswith [65279] s then
    inl (Exn JSONDecodeError
             (decode_error_str "Unexpected UTF-8 BOM (decode using utf-8-sig)" s s))
  else
    match scan_once (fuel_for s) (skip_ws s) with
    | ScanDepth => inl (Exn RecursionError (py "maximum recursion depth exceeded"))
    | ScanError m h => inl (Exn JSONDecodeError (decode_error_str m s h))
    | Scanned v r =>
      match skip_ws r with
      | [] => inr v
      | c :: r' => inl (Exn JSONDecodeError (decode_error_str "Extra data" s (c :: r')))
      end
    end.

End Json.

(* ===================================================================== *)
(** ** The world of a run: requests, events, and the monad of scripts *)
(* ===================================================================== *)

Module Runtime.

Import PyStr Py.

(** The arguments of one [requests.post(url, headers=..., json=..., timeout=...)].
    [timeout] is [None] when the call names none: requests then waits for
    the server without a bound. *)
Record request : Type := Request {
  url : pystr;
  headers : list (pystr * pystr);
  json : pyval;
  timeout : option Z
}.

(** What the programs read of a response. *)
Record response : Type := Response {
  status_code : Z;
  text : pystr
}.

(** What [requests.post] does with a request: it returns or it raises. *)
Inductive post_outcome : Type :=
| Responds (r : response)
| Raises (e : exn).

(** The network: the outcome of the n-th request of a run (from 0). *)
Definition network := nat -> request -> post_outcome.

(** What a run does to the world outside it, in order. *)
Inductive event : Type :=
| EvPost (req : request)
| EvFileDump (path : pystr) (data : pyval)     (* json.dump(data, open(path, 'w')) *)
| EvPrint (line : pystr)
| EvStError (msg : pystr)
| EvStWarning (msg : pystr)
| EvStPageConfig (page_title layout : pystr)
| EvStTitle (s : pystr)
| EvStWrite (s : pystr)
| EvStTextArea (label value : pystr)
| EvStButton (label : pystr)
| EvStSpinner (s : pystr)
| EvStSubheader (s : pystr)
| EvStJson (data : pyval)
| EvStMetric (label : pystr) (value : nat)
| EvStDownloadButton (label : pystr) (data : pyval)  (* data before json.dumps; the
                                                         file name carries the time *)
| EvStSidebar.                                  (* the log panel; its text comes
                                                   from the log file *)

(** The state of a running script: its mutable variables and the trace. *)
Record machine (V : Type) : Type := Machine {
  vars : V;
  trace : list event
}.

Arguments Machine {V} vars trace.
Arguments vars {V} m.
Arguments trace {V} m.

(** How a computation ends: it returns, it raises an exception, or
    [st.stop()] ends the script (streamlit's script-control exception, which
    is no [Exception] and which no handler of the programs takes). *)
Inductive outcome (A : Type) : Type :=
| Ok (a : A)
| Raised (e : exn)
| Stopped.

Arguments Ok {A} a.
Arguments Raised {A} e.
Arguments Stopped {A}.

(** A computation: it changes the machine and ends in an outcome. *)
Definition M (V A : Type) : Type := machine V -> machine V * outcome A.

Definition ret {V A} (a : A) : M V A := fun m => (m, Ok a).

Definition bind {V A B} (c : M V A) (k : A -> M V B) : M V B :=
  fun m =>
    match c m with
    | (m', Ok a) => k a m'
    | (m', Raised e) => (m', Raised e)
    | (m', Stopped) => (m', Stopped)
    end.

Definition raise {V A} (e : exn) : M V A := fun m => (m, Raised e).

(** [st.stop()] *)
Definition st_stop {V A} : M V A := fun m => (m, Stopped).

(** [try: c  except ...: h]: the handler [h] names the exceptions it takes by
    returning what to run for them; it runs in the machine as the exception
    left it. *)
Definition try_except {V A} (c : M V A) (h : exn -> option (M V A)) : M V A :=
  fun m =>
    match c m with
    | (m', Raised e) =>
      match h e with
      | Some k => k m'
      | None => (m', Raised e)
      end
    | other => other
    end.

(** A pure step that may raise. *)
Definition lift {V A} (r : exn + A) : M V A :=
  fun m => (m, match r with inr a => Ok a | inl e => Raised e end).

Definition emit {V} (ev : event) : M V unit :=
  fun m => (Machine (vars m) (trace m ++ [ev]), Ok tt).

Definition get_vars {V} : M V V := fun m => (m, Ok (vars m)).

Definition modify_vars {V} (f : V -> V) : M V unit :=
  fun m => (Machine (f (vars m)) (trace m), Ok tt).

(** [for x in xs: body(x)] *)
Fixpoint for_each {V A} (xs : list A) (body : A -> M V unit) : M V unit :=
  match xs with
  | [] => ret tt
  | x :: rest => bind (body x) (fun _ => for_each rest body)
  end.

(** The requests of a trace, in order. *)
Definition posts (tr : list event) : list request :=
  flat_map (fun ev => match ev with EvPost r => [r] | _ => [] end) tr.

(** [requests.post]: the request is recorded, and the network decides. *)
Definition requests_post {V} (net : network) (req : request) : M V response :=
  fun m =>
    let m' := Machine (vars m) (trace m ++ [EvPost req]) in
    match net (length (posts (trace m))) req with
    | Responds r => (m', Ok r)
    | Raises e => (m', Raised e)
    end.

(** [response.json()]: the body decoded; a body that is no JSON raises
    requests' own decode error, which carries the decoder's message. *)
Definition response_json {V} (r : response) : M V pyval :=
  match Json.loads (text r) with
  | inr v => ret v
  | inl e =>
    match exn_class_of e with
    | JSONDecodeError => raise (Exn RequestsJSONDecodeError (exn_str e))
    | _ => raise e
    end
  end.

(** A script run from the start. *)
Definition run {V A} (c : M V A) (v0 : V) : machine V * outcome A :=
  c (Machine v0 []).

Declare Scope py_scope.
Delimit Scope py_scope with py.
Notation "x <- c ;; k" := (bind c (fun x => k))
  (at level 61, c at next level, right associativity) : py_scope.
Notation "c ;;; k" := (bind c (fun _ => k))
  (at level 61, right associativity) : py_scope.

End Runtime.

(* ===================================================================== *)
(** ** What the two programs share by text *)
(* ===================================================================== *)

Module Common.

Import PyStr Py Runtime.

(** [MODEL] *)
Definition MODEL : pystr := py "meta-llama/Llama-3-70b-chat-hf".

(** The f-string [prompt] of [get_pronunciation].  The two files differ in
    the first word of the note line only, given here as [note]. *)
Definition prompt_text (note : pystr) (word : pystr) : pystr :=
  str_join nl
    [ [];
      py "You are a language assistant. I will provide an English word. Your task is to:";
      [];
      py "1. Convert the English word into its correct pronunciation in English in USA style (like Toilet: 'TOy Luht').";
      py "2. Convert that pronunciation into a Telugu representation of the sounds.";
      [];
      py "Respond in JSON format as shown in the example.";
      [];
      py "Example input: 'toilet'";
      py "Example output:";
      py "{";
      py "  " ++ quoted (py "word") ++ py ": " ++ quoted (py "toilet") ++ py ",";
      py "  " ++ quoted (py "pronunciation") ++ py ": " ++ quoted (py "TOy Luht") ++ py ",";
      py "  " ++ quoted (py "pronunciation_telugu") ++ py ": " ++ quoted (py "టాయ్ లహ్ట్");
      py "}";
      [];
      note ++ py ": Do not include any additional text or explanations, only the JSON object. Do not include any markdown formatting. Ensure the Telugu representation captures the phonetic sounds accurately.";
      py "Now process the following word: '" ++ word ++ py "'";
      [] ].

(** [url], [headers] and [data] of [get_pronunciation]. *)
Definition url : pystr := py "https://api.together.xyz/completions".

Definition headers (API_KEY : pystr) : list (pystr * pystr) :=
  [ (py "Authorization", py "Bearer " ++ API_KEY);
    (py "Content-Type", py "application/json") ].

Definition data (prompt : pystr) : pyval :=
  dict_of [ (py "model", PStr MODEL);
            (py "prompt", PStr prompt);
            (py "max_tokens", PInt 200);
            (py "temperature", PInt 0) ].

(** The argument of [strip] in the cleanup: three backticks. *)
Definition fence : pystr := py "```".

(** [output_text.strip().strip("```").strip()] for a string [output_text]. *)
Definition cleanup (output_text : pystr) : pystr :=
  str_strip (str_strip_chars fence (str_strip output_text)).

End Common.

(* ===================================================================== *)
(** ** get_accent_word.py: the batch runner *)
(* ===================================================================== *)

Module get_accent_word.

Import PyStr Py Runtime Common.
Local Open Scope py_scope.

(** [get_pronunciation(word)], lines 15-62.  [API_KEY] is the module's
    global. *)
Definition get_pronunciation {V} (net : network) (API_KEY : pystr) (word : pystr)
  : M V pyval :=
  let prompt := prompt_text (py "NNote") word in
  response <- requests_post net (Request url (headers API_KEY) (data prompt) None) ;;
  if (status_code response =? 200)%Z then
    result <- response_json response ;;
    choices <- lift (subscript_str result (py "choices")) ;;
    first <- lift (subscript_zero choices) ;;
    output_text <- lift (subscript_str first (py "text")) ;;
    (* --- CLEAN OUTPUT --- *)
    stripped <- lift (method_strip output_text) ;;
    let cleaned_text := str_strip (str_strip_chars fence stripped) in
    try_except
      (lift (Json.loads cleaned_text))
      (fun e =>
         if is_JSONDecodeError e
         then Some (ret (dict_of [ (py "error", PStr (py "Failed to parse JSON from LLM output"));
                                   (py "raw_output", output_text) ]))
         else None)
  else
    ret (dict_of [ (py "error",
                    PStr (py "API request failed with status "
                            ++ str_of_int (status_code response)));
                   (py "details", PStr (text response)) ]).

(** [words] *)
Definition words : list pystr := [py "toilet"; py "computer"; py "water"].

(** The script from its first line to its last.  [env_API_KEY] is what
    [os.getenv("API_KEY")] returns after [load_dotenv()].  The one mutable
    variable is [all_outputs]. *)
Definition main (net : network) (env_API_KEY : option pystr)
  : M (list pyval) unit :=
  if negb (env_truthy env_API_KEY) then
    raise (Exn ValueError
      (py "API_KEY not found in environment variables. Please set it in the .env file."))
  else
    let API_KEY := match env_API_KEY with Some k => k | None => [] end in
    modify_vars (fun _ => []) ;;;
    for_each words (fun w =>
      output <- get_pronunciation net API_KEY w ;;
      modify_vars (fun all_outputs => all_outputs ++ [output])) ;;;
    all_outputs <- get_vars ;;
    emit (EvFileDump (py "pronunciations.json") (PList all_outputs)) ;;;
    emit (EvPrint (py "Output saved to pronunciations.json")).

End get_accent_word.

(* ===================================================================== *)
(** ** streamlit_app.py: the interactive form *)
(* ===================================================================== *)

Module streamlit_app.

Import PyStr Py Runtime Common.
Local Open Scope py_scope.

(** [get_pronunciation(word)], lines 59-158. *)
Definition get_pronunciation {V} (net : network) (API_KEY : pystr) (word : pystr)
  : M V pyval :=
  let prompt := prompt_text (py "Note") word in
  try_except
    (response <- requests_post net
                   (Request url (headers API_KEY) (data prompt) (Some 30%Z)) ;;
     if (status_code response =? 200)%Z then
       result <- response_json response ;;
       choices <- lift (subscript_str result (py "choices")) ;;
       first <- lift (subscript_zero choices) ;;
       output_text <- lift (subscript_str first (py "text")) ;;
       stripped <- lift (method_strip output_text) ;;
       let cleaned_text := str_strip (str_strip_chars fence stripped) in
       try_except
         (parsed_json <- lift (Json.loads cleaned_text) ;;
          ret parsed_json)
         (fun e =>
            if is_JSONDecodeError e
            then Some (ret (dict_of [ (py "error", PStr (py "Failed to parse JSON from LLM output"));
                                      (py "raw_output", output_text);
                                      (py "word", PStr word) ]))
            else None)
     else
       ret (dict_of [ (py "error",
                       PStr (py "API request failed with status "
                               ++ str_of_int (status_code response)));
                      (py "details", PStr (text response));
                      (py "word", PStr word) ]))
    (fun e =>
       match exn_class_of e with
       | RequestsTimeout =>
         Some (ret (dict_of [ (py "error", PStr (py "Request timeout"));
                              (py "word", PStr word) ]))
       | RequestsConnectionError =>
         Some (ret (dict_of [ (py "error", PStr (py "Connection error"));
                              (py "details", PStr (exn_str e));
                              (py "word", PStr word) ]))
       | _ =>
         Some (ret (dict_of [ (py "error", PStr (py "Unexpected error"));
                              (py "details", PStr (exn_str e));
                              (py "word", PStr word) ]))
       end).

(** What the user has done to the page when the script runs: the text of
    the text area and whether the button was pressed. *)
Record ui : Type := UI {
  words_input : pystr;
  convert_clicked : bool
}.

(** The variables of the processing branch. *)
Record locals : Type := Locals {
  all_outputs : list pyval;
  successful_conversions : nat;
  failed_conversions : nat
}.

(** [words], line 176: the comprehension over [words_input.split(",")]. *)
Definition words (words_input : pystr) : list pystr :=
  map str_strip
      (filter (fun w => str_truthy (str_strip w)) (str_split ch_comma words_input)).

Definition append_output (output : pyval) (l : locals) : locals :=
  Locals (all_outputs l ++ [output]) (successful_conversions l) (failed_conversions l).

Definition count_failed (l : locals) : locals :=
  Locals (all_outputs l) (successful_conversions l) (S (failed_conversions l)).

Definition count_successful (l : locals) : locals :=
  Locals (all_outputs l) (S (successful_conversions l)) (failed_conversions l).

(** The body of the loop over [words], lines 194-212. *)
Definition process_word (net : network) (API_KEY : pystr) (w : pystr)
  : M locals unit :=
  try_except
    (output <- get_pronunciation net API_KEY w ;;
     modify_vars (append_output output) ;;;
     has_error <- lift (contains_str (py "error") output) ;;
     if has_error : bool
     then modify_vars count_failed
     else modify_vars count_successful)
    (fun e =>
       Some (modify_vars (append_output
                            (dict_of [ (py "error", PStr (py "Critical processing error"));
                                       (py "details", PStr (exn_str e));
                                       (py "word", PStr w) ])) ;;;
             modify_vars count_failed)).

(** The branch taken when the button was pressed, lines 173-244. *)
Definition on_convert (net : network) (API_KEY : pystr) (words_input : pystr)
  : M locals unit :=
  let words := words words_input in
  match words with
  | [] => emit (EvStWarning (py "Please enter at least one word."))
  | _ :: _ =>
    modify_vars (fun _ => Locals [] 0 0) ;;;
    emit (EvStSpinner (py "Processing...")) ;;;
    for_each words (process_word net API_KEY) ;;;
    l <- get_vars ;;
    emit (EvStSubheader (py "Results")) ;;;
    emit (EvStJson (PList (all_outputs l))) ;;;
    emit (EvStMetric (py "Total Words") (length words)) ;;;
    emit (EvStMetric (py "Successful") (successful_conversions l)) ;;;
    emit (EvStMetric (py "Failed") (failed_conversions l)) ;;;
    emit (EvStDownloadButton (py "Download JSON") (PList (all_outputs l)))
  end.

(** The page after the configuration check, lines 161-267. *)
Definition page (net : network) (API_KEY : pystr) (u : ui) : M locals unit :=
  emit (EvStPageConfig (py "English to Telugu Pronunciation") (py "centered")) ;;;
  emit (EvStTitle (py "English to Telugu Pronunciation Converter")) ;;;
  emit (EvStWrite (py "Enter English words (comma-separated) to get their pronunciation in English and Telugu:")) ;;;
  emit (EvStTextArea (py "Words") (py "toilet, computer, water")) ;;;
  emit (EvStButton (py "Convert")) ;;;
  (if convert_clicked u
   then on_convert net API_KEY (words_input u)
   else ret tt) ;;;
  emit EvStSidebar.

(** One run of the script.  [env_API_KEY] is what [os.getenv("API_KEY")]
    returns after [load_dotenv()]. *)
Definition main (net : network) (env_API_KEY : option pystr) (u : ui)
  : M locals unit :=
  if negb (env_truthy env_API_KEY) then
    emit (EvStError (py "API_KEY not found. Please contact the administrator.")) ;;;
    st_stop
  else
    let API_KEY := match env_API_KEY with Some k => k | None => [] end in
    page net API_KEY u.

End streamlit_app.

(* ===================================================================== *)
(** ** Vocabulary of the specification *)
(* ===================================================================== *)

Module Spec.

Import PyStr Py Runtime Common.
Local Open Scope N_scope.

(** A key of [v] is populated: [v] is a dict that holds a non-empty string
    under it. *)
Definition populated (key : pystr) (v : pyval) : bool :=
  match v with
  | PDict d =>
    match dict_get key d with
    | Some (PStr (_ :: _)) => true
    | _ => false
    end
  | _ => false
  end.

(** The two shapes of the data model. *)
Definition is_PronunciationResult (v : pyval) : bool :=
  populated (py "word") v
  && populated (py "pronunciation") v
  && populated (py "pronunciation_telugu") v.

Definition is_PronunciationError (v : pyval) : bool :=
  populated (py "error") v.

(** A result object that contains an ["error"] key. *)
Definition has_error_key (v : pyval) : bool :=
  match v with
  | PDict d => dict_has (py "error") d
  | _ => false
  end.


(** The first and the last character of a string satisfy [p]. *)
Definition head_is (p : N -> bool) (s : pystr) : bool :=
  match s with
  | c :: _ => p c
  | [] => false
  end.

Fixpoint last_is (p : N -> bool) (s : pystr) : bool :=
  match s with
  | [] => false
  | [c] => p c
  | _ :: t => last_is p t
  end.

(** A string with no surrounding whitespace. *)
Definition no_surrounding_whitespace (s : pystr) : Prop :=
  head_is isspace s = false /\ last_is isspace s = false.

(** [s.endswith(p)] *)
Definition endswith (p s : pystr) : bool := startswith (rev p) (rev s).

(** A string with no triple-backtick fence at either end. *)
Definition no_fencing (s : pystr) : Prop :=
  startswith fence s = false /\ endswith fence s = false.

Definition is_backtick (c : N) : bool := c =? ch_backtick.




(** The wording of the specification for the word list: "splitting on
    commas, trimming whitespace from each piece, and discarding empty
    pieces". *)
Definition split_trim_discard (input : pystr) : list pystr :=
  filter str_truthy (map str_strip (str_split ch_comma input)).

(** A character of an input that holds separators and whitespace only. *)
Definition separator_or_space (c : N) : bool := (c =? ch_comma) || isspace c.

(** Scanning [s] took a non-empty prefix of it that does not end with a
    backtick, and left [r]. *)
Inductive leaves : pystr -> pystr -> Prop :=
| leaves_last (c : N) (r : pystr) : is_backtick c = false -> leaves (c :: r) r
| leaves_skip (c : N) (s r : pystr) : leaves s r -> leaves (c :: s) r.

(** [response.json()["choices"][0]["text"]]: the completion text of a
    response, or the exception the expression raises. *)
Definition completion_text (r : response) : exn + pyval :=
  match Json.loads (text r) with
  | inl e =>
    match exn_class_of e with
    | JSONDecodeError => inl (Exn RequestsJSONDecodeError (exn_str e))
    | _ => inl e
    end
  | inr result =>
    match subscript_str result (py "choices") with
    | inl e => inl e
    | inr choices =>
      match subscript_zero choices with
      | inl e => inl e
      | inr first => subscript_str first (py "text")
      end
    end
  end.

(** The request each variant sends for a word. *)
Definition batch_request (API_KEY word : pystr) : request :=
  Request url (headers API_KEY) (data (prompt_text (py "NNote") word)) None.

Definition app_request (API_KEY word : pystr) : request :=
  Request url (headers API_KEY) (data (prompt_text (py "Note") word)) (Some 30%Z).

(** The machine after one more request. *)
Definition after_post {V} (m : machine V) (req : request) : machine V :=
  Machine (vars m) (trace m ++ [EvPost req]).

(** The error objects the fetchers build. *)
Definition parse_failure (output_text : pyval) : list (pystr * pyval) :=
  [ (py "error", PStr (py "Failed to parse JSON from LLM output"));
    (py "raw_output", output_text) ].

Definition request_failed (r : response) : list (pystr * pyval) :=
  [ (py "error", PStr (py "API request failed with status " ++ str_of_int (status_code r)));
    (py "details", PStr (text r)) ].

Definition with_word (word : pystr) (kvs : list (pystr * pyval)) : pyval :=
  dict_of (kvs ++ [(py "word", PStr word)]).

Definition unexpected_error (e : exn) : list (pystr * pyval) :=
  [ (py "error", PStr (py "Unexpected error"));
    (py "details", PStr (exn_str e)) ].

(** How a call of the batch fetcher ends, given what the network did with
    its request. *)
Definition batch_outcome (o : post_outcome) : outcome pyval :=
  match o with
  | Raises e => Raised e
  | Responds r =>
    if (status_code r =? 200)%Z then
      match completion_text r with
      | inl e => Raised e
      | inr output_text =>
        match method_strip output_text with
        | inl e => Raised e
        | inr stripped =>
          match Json.loads (str_strip (str_strip_chars fence stripped)) with
          | inr v => Ok v
          | inl e =>
            if is_JSONDecodeError e
            then Ok (dict_of (parse_failure output_text))
            else Raised e
          end
        end
      end
    else Ok (dict_of (request_failed r))
  end.

(** The error object the outer handlers of the interactive fetcher build
    for an exception: [except Timeout], [except ConnectionError],
    [except Exception], in this order. *)
Definition app_handled (word : pystr) (e : exn) : pyval :=
  match exn_class_of e with
  | RequestsTimeout =>
    with_word word [ (py "error", PStr (py "Request timeout")) ]
  | RequestsConnectionError =>
    with_word word [ (py "error", PStr (py "Connection error"));
                     (py "details", PStr (exn_str e)) ]
  | _ => with_word word (unexpected_error e)
  end.

(** The value a call of the interactive fetcher returns, given what the
    network did with its request. *)
Definition app_value (word : pystr) (o : post_outcome) : pyval :=
  match o with
  | Raises e => app_handled word e
  | Responds r =>
    if (status_code r =? 200)%Z then
      match completion_text r with
      | inl e => app_handled word e
      | inr output_text =>
        match method_strip output_text with
        | inl e => app_handled word e
        | inr stripped =>
          match Json.loads (str_strip (str_strip_chars fence stripped)) with
          | inr v => v
          | inl e =>
            if is_JSONDecodeError e
            then with_word word (parse_failure output_text)
            else app_handled word e
          end
        end
      end
    else with_word word (request_failed r)
  end.

(** The call went down the success path: the network answered 200, the
    completion text is a string, and its cleaned form parsed to [v]. *)
Definition parsed_from_completion (o : post_outcome) (v : pyval) : Prop :=
  exists r output_text,
    o = Responds r /\ status_code r = 200%Z /\
    completion_text r = inr (PStr output_text) /\
    Json.loads (cleanup output_text) = inr v.

(** The entry the loop of the form appends when its body raises. *)
Definition critical_error (e : exn) (w : pystr) : pyval :=
  dict_of [ (py "error", PStr (py "Critical processing error"));
            (py "details", PStr (exn_str e));
            (py "word", PStr w) ].

(** What one turn of the loop of the form does to its variables, given the
    value the fetcher returned for the word. *)
Definition record_output (w : pystr) (output : pyval) (l : streamlit_app.locals)
  : streamlit_app.locals :=
  match contains_str (py "error") output with
  | inr true => streamlit_app.count_failed (streamlit_app.append_output output l)
  | inr false => streamlit_app.count_successful (streamlit_app.append_output output l)
  | inl e =>
    streamlit_app.count_failed
      (streamlit_app.append_output (critical_error e w)
         (streamlit_app.append_output output l))
  end.

(** The number of result objects of a list that contain an ["error"] key. *)
Definition count_errors (outputs : list pyval) : nat :=
  length (filter has_error_key outputs).

Definition is_dict (v : pyval) : bool :=
  match v with PDict _ => true | _ => false end.

(** A JSON string literal for [s]: quotes and backslashes escaped (enough
    for texts without control characters). *)
Definition json_string (s : pystr) : pystr :=
  dq ++ flat_map (fun c => if (c =? 34) || (c =? 92) then [92; c] else [c]) s ++ dq.

(** A 200 response of the completion endpoint whose first choice has the
    text [t]. *)
Definition completion_response (t : pystr) : response :=
  Response 200
    (py "{" ++ quoted (py "choices") ++ py ": [{" ++ quoted (py "text") ++ py ": "
        ++ json_string t ++ py "}]}").

(** The JSON object of the prompt's example, as the model is asked to
    write it, and the value it parses to. *)
Definition toilet_json : pystr :=
  py "{" ++ quoted (py "word") ++ py ":" ++ quoted (py "toilet") ++ py ","
     ++ quoted (py "pronunciation") ++ py ":" ++ quoted (py "TOy Luht") ++ py ","
     ++ quoted (py "pronunciation_telugu") ++ py ":" ++ quoted (py "టాయ్ లహ్ట్") ++ py "}".

Definition toilet_result : pyval :=
  dict_of [ (py "word", PStr (py "toilet"));
            (py "pronunciation", PStr (py "TOy Luht"));
            (py "pronunciation_telugu", PStr (py "టాయ్ లహ్ట్")) ].

(** A refused connection, as [requests.post] reports it. *)
Definition connection_refused : exn :=
  Exn RequestsConnectionError (py "Connection refused").

(** A network that does the same with every request. *)
Definition always (o : post_outcome) : network := fun _ _ => o.

(** A run of the form with the one word "x" and a model that answers with
    the completion text "42". *)
Definition scalar_completion_run : machine streamlit_app.locals * outcome unit :=
  run (streamlit_app.main (always (Responds (completion_response (py "42"))))
                          (Some (py "key"))
                          (streamlit_app.UI (py "x") true))
      (streamlit_app.Locals [] 0 0).

(** What the form draws after the loop, for the variables [l] and [n] words. *)
Definition results_display (n : nat) (l : streamlit_app.locals) : list event :=
  [ EvStSubheader (py "Results");
    EvStJson (PList (streamlit_app.all_outputs l));
    EvStMetric (py "Total Words") n;
    EvStMetric (py "Successful") (streamlit_app.successful_conversions l);
    EvStMetric (py "Failed") (streamlit_app.failed_conversions l);
    EvStDownloadButton (py "Download JSON") (PList (streamlit_app.all_outputs l)) ].

End Spec.

(* ===================================================================== *)
(** ** The rest of the two files *)
(* ===================================================================== *)

Module Coverage.

Import PyStr Py Runtime Common Spec.
Local Open Scope N_scope.

(** A character the cleanup removes from the ends of a text. *)
Definition strippable (c : N) : bool := isspace c || is_backtick c.

(** A string without a comma. *)
Definition no_comma (w : pystr) : bool :=
  forallb (fun c => negb (c =? ch_comma)) w.

(** [", ".join(ws)]: a word list written the way the text area is
    pre-filled. *)
Definition comma_separated (ws : list pystr) : pystr := str_join (py ", ") ws.



(** The values the interactive fetcher returns for the words [ws], when the
    first of them is the n-th request of the run. *)
Fixpoint fetched_values (net : network) (API_KEY : pystr) (n : nat) (ws : list pystr)
  : list pyval :=
  match ws with
  | [] => []
  | w :: rest =>
    app_value w (net n (app_request API_KEY w))
      :: fetched_values net API_KEY (S n) rest
  end.


(** [f.readlines()] on the text of a file (after the translation of line
    ends that reading in text mode does): the lines, each with its line
    feed, the last one without when the text does not end with one. *)
Fixpoint readlines (content : pystr) : list pystr :=
  match content with
  | [] => []
  | c :: t =>
    if c =? ch_newline then [c] :: readlines t
    else
      match readlines t with
      | [] => [[c]]
      | l :: ls => (c :: l) :: ls
      end
  end.

(** [xs[-k:]] for a positive [k]: the last [k] elements, all of them when
    there are fewer. *)
Definition slice_last {A} (k : nat) (xs : list A) : list A :=
  skipn (length xs - k) xs.

(** [recent_logs], line 261 of streamlit_app.py: [''.join(lines[-20:])]. *)
Definition recent_logs (content : pystr) : pystr :=
  concat (slice_last 20 (readlines content)).

(** The levels of [logging] the program uses. *)
Inductive loglevel : Type := DEBUG | INFO | WARNING | ERROR.

Definition level_number (l : loglevel) : nat :=
  match l with
  | DEBUG => 10
  | INFO => 20
  | WARNING => 30
  | ERROR => 40
  end.

(** Where a handler writes. *)
Inductive sink : Type :=
| FileSink (path : pystr)
| ConsoleSink.

(** A handler: its sink, its level and its format string. *)
Record handler : Type := Handler {
  handler_sink : sink;
  handler_level : loglevel;
  handler_format : pystr
}.

(** The logger of the module: it lives as long as the process does. *)
Record logger : Type := Logger {
  logger_level : option loglevel;
  handlers : list handler
}.

(** [logging.getLogger(__name__)] the first time it is asked for. *)
Definition new_logger : logger := Logger None [].

(** The logging configuration, lines 21-42 of streamlit_app.py, for the
    [log_filename] of the run. *)
Definition configure_logging (log_filename : pystr) (lg : logger) : logger :=
  let lg := Logger (Some DEBUG) (handlers lg) in
  match handlers lg with
  | [] =>
    let file_handler :=
      Handler (FileSink log_filename) DEBUG
              (py "%(asctime)s | %(levelname)-8s | %(funcName)s:%(lineno)d | %(message)s") in
    let console_handler :=
      Handler ConsoleSink INFO (py "%(levelname)s: %(message)s") in
    Logger (logger_level lg) ((handlers lg ++ [file_handler]) ++ [console_handler])
  | _ :: _ => lg
  end.

(** The level a logger works with: its own, or the root logger's default,
    WARNING, when it was given none. *)
Definition effective_level (lg : logger) : loglevel :=
  match logger_level lg with
  | Some l => l
  | None => WARNING
  end.

(** The sinks a record of level [l] is written to, in order: the logger
    takes the record when its level allows, and then every handler of the
    logger whose level allows writes it.  (Handlers of the root logger are
    not modelled; the program adds none.) *)
Definition sinks_of (lg : logger) (l : loglevel) : list sink :=
  if (level_number (effective_level lg) <=? level_number l)%nat
  then map handler_sink
           (filter (fun h => (level_number (handler_level h) <=? level_number l)%nat)
                   (handlers lg))
  else [].

(** The logger after the script has run once for each of the file names
    [log_filenames], in one process (the reruns of the form). *)
Definition after_runs (log_filenames : list pystr) : logger :=
  fold_left (fun lg f => configure_logging f lg) log_filenames new_logger.

(** The entries one turn of the loop of the form appends to [all_outputs]
    for the word [w], when the fetcher returned [output]: the output, and
    after it the replacement entry when testing the output for an
    ["error"] key raised. *)
Definition entries_of (w : pystr) (output : pyval) : list pyval :=
  match contains_str (py "error") output with
  | inr _ => [output]
  | inl e => [output; critical_error e w]
  end.

(** The entries of the loop of the form for the words [ws], when the first
    of them is the n-th request of the run. *)
Fixpoint recorded_entries (net : network) (API_KEY : pystr) (n : nat) (ws : list pystr)
  : list pyval :=
  match ws with
  | [] => []
  | w :: rest =>
    entries_of w (app_value w (net n (app_request API_KEY w)))
      ++ recorded_entries net API_KEY (S n) rest
  end.

(** What the loop of the form counts as a success: a value that can be
    tested for an ["error"] key and has none. *)
Definition counts_as_success (output : pyval) : bool :=
  match contains_str (py "error") output with
  | inr false => true
  | _ => false
  end.

(** A line that is closed: not empty, its last character a line feed and
    no other. *)
Fixpoint full_line (l : pystr) : bool :=
  match l with
  | [] => false
  | c :: t =>
    match t with
    | [] => c =? ch_newline
    | _ :: _ => negb (c =? ch_newline) && full_line t
    end
  end.

(** A line that is not closed: not empty, with no line feed. *)
Definition open_line (l : pystr) : bool :=
  match l with
  | [] => false
  | _ :: _ => forallb (fun c => negb (c =? ch_newline)) l
  end.

(** The lines of a text: closed lines, the last one possibly not closed. *)
Fixpoint well_split (ls : list pystr) : bool :=
  match ls with
  | [] => true
  | l :: rest =>
    match rest with
    | [] => full_line l || open_line l
    | _ :: _ => full_line l && well_split rest
    end
  end.

End Coverage.

(* ===================================================================== *)
(** ** Properties *)
(* ===================================================================== *)

Import PyStr Py Runtime Common Spec.

(** *** The fetchers as functions of what the network did *)

Section Fetchers.

Context {V : Type}.
Variable net : network.
Variables API_KEY word : pystr.
Variable m : machine V.

(** The batch fetcher sends one request and ends as [batch_outcome] says. *)
Lemma batch_get_pronunciation_run :
  get_accent_word.get_pronunciation net API_KEY word m
  = (after_post m (batch_request API_KEY word),
     batch_outcome (net (length (posts (trace m))) (batch_request API_KEY word))).
Proof.
  unfold get_accent_word.get_pronunciation, batch_outcome, completion_text,
    response_json, bind, requests_post, try_except, lift, ret, raise,
    after_post, batch_request.
  destruct (net _ _) as [r | e]; [| reflexivity].
  destruct (status_code r =? 200)%Z; [| reflexivity].
  destruct (Json.loads (text r)) as [e | result].
  { destruct e as [[] msg]; reflexivity. }
  destruct (subscript_str result (py "choices")) as [e | choices]; [reflexivity |].
  destruct (subscript_zero choices) as [e | first]; [reflexivity |].
  destruct (subscript_str first (py "text")) as [e | output_text]; [reflexivity |].
  destruct (method_strip output_text) as [e | stripped]; [reflexivity |].
  destruct (Json.loads _) as [e | v]; [| reflexivity].
  destruct (is_JSONDecodeError e); reflexivity.
Qed.

(** The interactive fetcher sends one request and returns [app_value]. *)
Lemma app_get_pronunciation_run :
  streamlit_app.get_pronunciation net API_KEY word m
  = (after_post m (app_request API_KEY word),
     Ok (app_value word (net (length (posts (trace m))) (app_request API_KEY word)))).
Proof.
  unfold streamlit_app.get_pronunciation, app_value, app_handled, completion_text,
    response_json, bind, requests_post, try_except, lift, ret, raise,
    after_post, app_request, with_word.
  destruct (net _ _) as [r | e].
  2:{ destruct e as [[] msg]; reflexivity. }
  destruct (status_code r =? 200)%Z; [| reflexivity].
  destruct (Json.loads (text r)) as [e | result].
  { destruct e as [[] msg]; reflexivity. }
  destruct (subscript_str result (py "choices")) as [e | choices].
  { destruct e as [[] msg]; reflexivity. }
  destruct (subscript_zero choices) as [e | first].
  { destruct e as [[] msg]; reflexivity. }
  destruct (subscript_str first (py "text")) as [e | output_text].
  { destruct e as [[] msg]; reflexivity. }
  destruct (method_strip output_text) as [e | stripped].
  { destruct e as [[] msg]; reflexivity. }
  destruct (Json.loads _) as [e | v]; [| reflexivity].
  destruct e as [[] msg]; reflexivity.
Qed.

End Fetchers.

(** *** Stripping *)

Section Strip.

Variable p : N -> bool.

Lemma lstrip_by_head (s : pystr) :
  head_is p s = false -> lstrip_by p s = s.
Proof.
  destruct s as [| c t]; simpl; [reflexivity |].
  intros ->; reflexivity.
Qed.

Lemma lstrip_by_all (s : pystr) :
  forallb p s = true -> lstrip_by p s = [].
Proof.
  induction s as [| c t IH]; simpl; [reflexivity |].
  intros H; apply andb_prop in H as [-> Ht]; auto.
Qed.

(** Stripping on the left of a string that ends with one more character. *)
Lemma lstrip_by_snoc (l : pystr) (x : N) :
  lstrip_by p (l ++ [x])
  = match lstrip_by p l with
    | [] => if p x then [] else [x]
    | y :: r => (y :: r) ++ [x]
    end.
Proof.
  induction l as [| c t IH]; simpl; [reflexivity |].
  destruct (p c); [exact IH | reflexivity].
Qed.


Lemma last_is_snoc (l : pystr) (x : N) : last_is p (l ++ [x]) = p x.
Proof.
  induction l as [| c t IH]; [reflexivity |].
  simpl. destruct (t ++ [x]) eqn:E; [destruct t; discriminate | exact IH].
Qed.

(** The last character of a string is the first of its reversal. *)
Lemma last_is_rev (s : pystr) : last_is p s = head_is p (rev s).
Proof.
  destruct s as [| c t] using rev_ind; [reflexivity |].
  rewrite last_is_snoc, rev_app_distr. reflexivity.
Qed.

Lemma head_is_rev (s : pystr) : head_is p (rev s) = last_is p s.
Proof. symmetry; apply last_is_rev. Qed.

Lemma rstrip_by_last (s : pystr) :
  last_is p s = false -> rstrip_by p s = s.
Proof.
  intros H. unfold rstrip_by.
  rewrite lstrip_by_head by (rewrite head_is_rev; exact H).
  apply rev_involutive.
Qed.

(** A string whose ends do not satisfy [p] is left as it is. *)
Lemma strip_by_clean (s : pystr) :
  head_is p s = false -> last_is p s = false -> strip_by p s = s.
Proof.
  intros Hh Hl. unfold strip_by.
  rewrite lstrip_by_head by exact Hh. apply rstrip_by_last, Hl.
Qed.

Lemma strip_by_all (s : pystr) : forallb p s = true -> strip_by p s = [].
Proof.
  intros H. unfold strip_by. rewrite lstrip_by_all by exact H. reflexivity.
Qed.

(** What is left after stripping does not start with a stripped character,
    and does not end with one. *)
Lemma lstrip_by_head_is (s : pystr) : head_is p (lstrip_by p s) = false.
Proof.
  induction s as [| c t IH]; simpl; [reflexivity |].
  destruct (p c) eqn:E; [exact IH | simpl; exact E].
Qed.

Lemma rstrip_by_last_is (s : pystr) : last_is p (rstrip_by p s) = false.
Proof.
  unfold rstrip_by. rewrite last_is_rev, rev_involutive. apply lstrip_by_head_is.
Qed.

End Strip.

Lemma lstrip_by_ext (p q : N -> bool) (s : pystr) :
  (forall c, p c = q c) -> lstrip_by p s = lstrip_by q s.
Proof.
  intros E. induction s as [| c t IH]; simpl; [reflexivity |].
  rewrite E, IH. reflexivity.
Qed.

Lemma strip_by_ext (p q : N -> bool) (s : pystr) :
  (forall c, p c = q c) -> strip_by p s = strip_by q s.
Proof.
  intros E. unfold strip_by, rstrip_by.
  rewrite (lstrip_by_ext p q s E).
  rewrite (lstrip_by_ext p q _ E). reflexivity.
Qed.

(** [strip("```")] strips backticks: the argument is a set of characters. *)
Lemma in_chars_fence (c : N) : in_chars fence c = is_backtick c.
Proof.
  unfold in_chars, fence, is_backtick, ch_backtick. simpl.
  destruct (c =? 96)%N; reflexivity.
Qed.

Lemma str_strip_chars_fence (s : pystr) :
  str_strip_chars fence s = strip_by is_backtick s.
Proof. apply strip_by_ext, in_chars_fence. Qed.



(** The cleanup leaves a string alone whose ends are neither whitespace nor
    backticks. *)
Lemma cleanup_clean (s : pystr) :
  no_surrounding_whitespace s ->
  head_is is_backtick s = false -> last_is is_backtick s = false ->
  cleanup s = s.
Proof.
  intros [Hh Hl] Bh Bl. unfold cleanup, str_strip.
  rewrite (strip_by_clean isspace s Hh Hl).
  rewrite str_strip_chars_fence, (strip_by_clean is_backtick s Bh Bl).
  apply strip_by_clean; assumption.
Qed.


(** *** Text wrapped in any number of backticks *)

Section Wrapped.

Variable p : N -> bool.
Variable c : N.






End Wrapped.




(** *** Splitting the words *)

Lemma map_filter_comm {A B} (f : A -> B) (g : B -> bool) (l : list A) :
  map f (filter (fun x => g (f x)) l) = filter g (map f l).
Proof.
  induction l as [| x t IH]; simpl; [reflexivity |].
  destruct (g (f x)); simpl; rewrite IH; reflexivity.
Qed.

(** The comprehension of the code computes what the specification words. *)
Lemma words_refines (input : pystr) :
  streamlit_app.words input = split_trim_discard input.
Proof. apply map_filter_comm. Qed.

(** No word of the list is empty, and none has surrounding whitespace. *)
Lemma words_clean (input : pystr) :
  Forall (fun w => w <> [] /\ no_surrounding_whitespace w) (streamlit_app.words input).
Proof.
  rewrite words_refines. unfold split_trim_discard.
  apply Forall_forall. intros w Hw.
  apply filter_In in Hw as [Hin Ht].
  apply in_map_iff in Hin as (piece & <- & _).
  split.
  - intros E. rewrite E in Ht. discriminate.
  - unfold str_strip, strip_by. split.
    + destruct (lstrip_by isspace piece) as [| x t] eqn:E; [reflexivity |].
      pose proof (lstrip_by_head_is isspace piece) as Hh. rewrite E in Hh.
      pose proof (rstrip_by_last_is isspace (x :: t)) as Hl.
      unfold rstrip_by in *. simpl rev in *.
      rewrite lstrip_by_snoc in *.
      destruct (lstrip_by isspace (rev t)) as [| y r].
      * simpl in Hh. rewrite Hh. simpl. exact Hh.
      * rewrite rev_app_distr. simpl. exact Hh.
    + apply rstrip_by_last_is.
Qed.

(** The pieces of a text of commas and whitespace are whitespace. *)
Lemma split_separators (s : pystr) :
  forallb separator_or_space s = true ->
  Forall (fun piece => forallb isspace piece = true) (str_split ch_comma s).
Proof.
  induction s as [| c t IH]; simpl; intros H.
  - constructor; [reflexivity | constructor].
  - apply andb_prop in H as [Hc Ht]. specialize (IH Ht).
    destruct (c =? ch_comma)%N eqn:E.
    + constructor; [reflexivity | exact IH].
    + unfold separator_or_space in Hc. rewrite E in Hc. simpl in Hc.
      destruct (str_split ch_comma t) as [| q qs].
      * constructor; [simpl; rewrite Hc; reflexivity | constructor].
      * inversion IH; subst. constructor; [simpl; rewrite Hc; assumption | assumption].
Qed.

(** An input of separators and whitespace only has no word. *)
Lemma words_of_separators (input : pystr) :
  forallb separator_or_space input = true -> streamlit_app.words input = [].
Proof.
  intros H. apply split_separators in H. unfold streamlit_app.words.
  induction H as [| piece rest Hp _ IH]; [reflexivity |].
  assert (E : str_strip piece = []) by (apply strip_by_all, Hp).
  cbn [filter]. rewrite E. exact IH.
Qed.

(** *** The loop of the form *)

Section Loop.

Variable net : network.
Variable API_KEY : pystr.

Import streamlit_app.

(** One turn of the loop: one request, one [record_output], no exception. *)
Lemma process_word_run (w : pystr) (m : machine locals) :
  process_word net API_KEY w m
  = (Machine
       (record_output w
          (app_value w (net (length (posts (trace m))) (app_request API_KEY w)))
          (vars m))
       (trace m ++ [EvPost (app_request API_KEY w)]),
     Ok tt).
Proof.
  unfold process_word, try_except, bind.
  rewrite app_get_pronunciation_run.
  unfold record_output, modify_vars, lift, after_post, critical_error. cbn [vars trace].
  destruct (contains_str (py "error") _) as [e | []]; reflexivity.
Qed.

Lemma posts_snoc (tr : list event) (req : request) :
  posts (tr ++ [EvPost req]) = posts tr ++ [req].
Proof. unfold posts. rewrite flat_map_app. reflexivity. Qed.

(** The loop never raises; it sends one request per word and counts every
    word once, as a success or as a failure. *)
Lemma for_each_process_word (ws : list pystr) (m : machine locals) :
  exists m',
    for_each ws (process_word net API_KEY) m = (m', Ok tt)
    /\ successful_conversions (vars m') + failed_conversions (vars m')
       = successful_conversions (vars m) + failed_conversions (vars m) + length ws
    /\ length (posts (trace m')) = length (posts (trace m)) + length ws
    /\ length (all_outputs (vars m)) + length ws <= length (all_outputs (vars m')).
Proof.
  revert m. induction ws as [| w rest IH]; intros m.
  - exists m. cbn. repeat split; lia.
  - cbn [for_each]. unfold bind at 1. rewrite process_word_run.
    destruct (IH (Machine
       (record_output w
          (app_value w (net (length (posts (trace m))) (app_request API_KEY w)))
          (vars m))
       (trace m ++ [EvPost (app_request API_KEY w)]))) as (m' & Hrun & Hsum & Hposts & Hlen).
    exists m'. split; [exact Hrun |].
    cbn [vars trace] in *. rewrite posts_snoc, length_app in Hposts.
    unfold record_output in *.
    destruct (contains_str (py "error") _) as [e | []];
      cbn [count_failed count_successful append_output all_outputs
           successful_conversions failed_conversions length] in *;
      rewrite ?length_app in *; cbn [length] in *; repeat split; lia.
Qed.

(** When every value the fetcher returns is a dict, the list of results
    grows by one entry per word, and the failures are the entries with an
    ["error"] key. *)
Lemma for_each_process_word_dicts (ws : list pystr) (m : machine locals) :
  (forall n w, is_dict (app_value w (net n (app_request API_KEY w))) = true) ->
  exists m',
    for_each ws (process_word net API_KEY) m = (m', Ok tt)
    /\ length (all_outputs (vars m')) = length (all_outputs (vars m)) + length ws
    /\ failed_conversions (vars m') + count_errors (all_outputs (vars m))
       = failed_conversions (vars m) + count_errors (all_outputs (vars m')).
Proof.
  intros Hd. revert m. induction ws as [| w rest IH]; intros m.
  - exists m. cbn. repeat split; lia.
  - cbn [for_each]. unfold bind at 1. rewrite process_word_run.
    destruct (IH (Machine
       (record_output w
          (app_value w (net (length (posts (trace m))) (app_request API_KEY w)))
          (vars m))
       (trace m ++ [EvPost (app_request API_KEY w)]))) as (m' & Hrun & Hlen & Hcnt).
    exists m'. split; [exact Hrun |].
    cbn [vars trace] in *.
    specialize (Hd (length (posts (trace m))) w).
    destruct (app_value w _) as [| | | | | | d]; try discriminate.
    unfold record_output, contains_str in *.
    unfold count_errors in *.
    destruct (dict_has (py "error") d) eqn:E;
      cbn [count_failed count_successful append_output all_outputs
           successful_conversions failed_conversions] in *;
      rewrite filter_app, !length_app in *; cbn [filter has_error_key length] in *;
      rewrite E in *; cbn [length] in *; split; lia.
Qed.

End Loop.

(** *** The scanner of [json.loads] *)

Import Json.

(** What a scanning function leaves is shorter than what it was given. *)
Lemma leaves_shorter s r : leaves s r -> length r < length s.
Proof. induction 1; simpl; lia. Qed.

Lemma leaves_trans s u r : leaves s u -> leaves u r -> leaves s r.
Proof.
  intros H1 H2. induction H1 as [c u Hc | c s u H IH].
  - apply leaves_skip, H2.
  - apply leaves_skip, IH, H2.
Qed.

Lemma leaves_lstrip p s r : leaves (lstrip_by p s) r -> leaves s r.
Proof.
  induction s as [| c t IH]; simpl; [trivial |].
  destruct (p c); [intros H; apply leaves_skip, IH, H | trivial].
Qed.

Lemma leaves_skip_ws s r : leaves (skip_ws s) r -> leaves s r.
Proof. apply leaves_lstrip. Qed.

Ltac break_match_in H :=
  match type of H with
  | context [match ?x with _ => _ end] =>
    first [is_var x; destruct x | let E := fresh "E" in destruct x eqn:E]
  end.

Lemma scanstring_leaves_bounded (n : nat) :
  forall s start acc str r,
    length s <= n -> scanstring start s acc = Scanned str r -> leaves s r.
Proof.
  induction n as [| n IH]; intros s start acc str r Hn H.
  - destruct s; [discriminate | simpl in Hn; lia].
  - destruct s as [| c t]; [discriminate |].
    cbn [scanstring] in H.
    repeat (break_match_in H; try discriminate).
    all: try (apply IH in H; [| cbn [length] in *; lia];
              repeat first [exact H | apply leaves_skip]).
    injection H as _ <-. apply N.eqb_eq in E; subst c. apply leaves_last. reflexivity.
Qed.

Lemma scanstring_no_depth_bounded (n : nat) :
  forall s start acc, length s <= n -> scanstring start s acc <> ScanDepth.
Proof.
  induction n as [| n IH]; intros s start acc Hn.
  - destruct s; [discriminate | simpl in Hn; lia].
  - destruct s as [| c t]; [discriminate |].
    cbn [scanstring].
    repeat match goal with
           | |- context [match ?x with _ => _ end] =>
             first [is_var x; destruct x | let E := fresh "E" in destruct x eqn:E]
           end; try discriminate.
    all: apply IH; cbn [length] in *; lia.
Qed.

Lemma is_digit_not_backtick c : is_digit c = true -> is_backtick c = false.
Proof.
  unfold is_digit, is_backtick, ch_backtick. intros H.
  apply andb_prop in H as [_ H]. apply N.leb_le in H. apply N.eqb_neq. lia.
Qed.

Lemma span_digits_leaves t ds r :
  span_digits t = (ds, r) -> (ds = [] /\ r = t) \/ leaves t r.
Proof.
  revert ds r. induction t as [| c t IH]; intros ds r; simpl.
  - intros [= <- <-]. left; auto.
  - destruct (is_digit c) eqn:Ec.
    + destruct (span_digits t) as [ds' r'] eqn:Es. intros [= <- <-].
      right. destruct (IH _ _ eq_refl) as [[_ ->] | H].
      * apply leaves_last, is_digit_not_backtick, Ec.
      * apply leaves_skip, H.
    + intros [= <- <-]. left; auto.
Qed.

Lemma match_frac_leaves s frac r :
  match_frac s = (frac, r) -> (frac = [] /\ r = s) \/ leaves s r.
Proof.
  unfold match_frac. destruct s as [| dot [| d t]]; try (intros [= <- <-]; left; auto).
  destruct ((dot =? 46)%N && is_digit d) eqn:E; [| intros [= <- <-]; left; auto].
  apply andb_prop in E as [_ Ed].
  destruct (span_digits t) as [ds r'] eqn:Es. intros [= <- <-]. right.
  apply leaves_skip.
  destruct (span_digits_leaves _ _ _ Es) as [[_ ->] | H].
  - apply leaves_last, is_digit_not_backtick, Ed.
  - apply leaves_skip, H.
Qed.

Lemma match_exp_leaves s exp r :
  match_exp s = (exp, r) -> (exp = [] /\ r = s) \/ leaves s r.
Proof.
  unfold match_exp. destruct s as [| e t]; [intros [= <- <-]; left; auto |].
  destruct ((e =? 101)%N || (e =? 69)%N); [| intros [= <- <-]; left; auto].
  destruct t as [| sg u].
  - simpl. intros [= <- <-]. left; auto.
  - destruct ((sg =? 45)%N || (sg =? 43)%N).
    + destruct (span_digits u) as [ds r'] eqn:Es.
      destruct ds as [| d ds]; intros [= <- <-]; [left; auto | right].
      destruct (span_digits_leaves _ _ _ Es) as [[Hd _] | H]; [discriminate |].
      do 2 apply leaves_skip. exact H.
    + destruct (span_digits (sg :: u)) as [ds r'] eqn:Es.
      destruct ds as [| d ds]; intros [= <- <-]; [left; auto | right].
      destruct (span_digits_leaves _ _ _ Es) as [[Hd _] | H]; [discriminate |].
      apply leaves_skip. exact H.
Qed.

Lemma match_digits_leaves neg c t v r :
  is_digit c = true -> match_digits neg c t = Scanned v r -> leaves (c :: t) r.
Proof.
  intros Hc. unfold match_digits.
  assert (H0 : forall ids r0,
             (if (c =? 48)%N then ([c], t)
              else let '(ds, r) := span_digits t in (c :: ds, r)) = (ids, r0) ->
             leaves (c :: t) r0).
  { intros ids r0. destruct (c =? 48)%N.
    - intros [= <- <-]. apply leaves_last, is_digit_not_backtick, Hc.
    - destruct (span_digits t) as [ds r'] eqn:Es. intros [= <- <-].
      destruct (span_digits_leaves _ _ _ Es) as [[_ ->] | H].
      + apply leaves_last, is_digit_not_backtick, Hc.
      + apply leaves_skip, H. }
  destruct (if (c =? 48)%N then _ else _) as [ids r0].
  specialize (H0 _ _ eq_refl).
  destruct (match_frac r0) as [frac r1] eqn:Ef.
  destruct (match_exp r1) as [exp r2] eqn:Ee.
  assert (H2 : leaves (c :: t) r2).
  { destruct (match_frac_leaves _ _ _ Ef) as [[_ ->] | Hf];
      destruct (match_exp_leaves _ _ _ Ee) as [[_ ->] | He];
      eauto using leaves_trans. }
  destruct frac, exp; intros [= _ <-]; exact H2.
Qed.

Lemma match_number_leaves s v r :
  match_number s = Scanned v r -> leaves s r.
Proof.
  unfold match_number. destruct s as [| c t]; [discriminate |].
  destruct (c =? 45)%N.
  - destruct t as [| d t']; [discriminate |].
    destruct (is_digit d) eqn:Ed; [| discriminate].
    intros H. apply leaves_skip. eapply match_digits_leaves; eauto.
  - destruct (is_digit c) eqn:Ec; [| discriminate].
    intros H. eapply match_digits_leaves; eauto.
Qed.

Lemma match_number_no_depth s : match_number s <> ScanDepth.
Proof.
  unfold match_number, match_digits.
  repeat match goal with
         | |- context [match ?x with _ => _ end] => destruct x
         end; discriminate.
Qed.

Lemma strip_prefix_app p s r : strip_prefix p s = Some r -> s = p ++ r.
Proof.
  revert s. induction p as [| x p IH]; intros s; simpl.
  - intros [= ->]. reflexivity.
  - destruct s as [| y s]; [discriminate |].
    destruct (x =? y)%N eqn:E; [| discriminate].
    apply N.eqb_eq in E; subst y. intros H. f_equal. apply IH, H.
Qed.

Lemma scan_atom_leaves s v r : scan_atom s = Scanned v r -> leaves s r.
Proof.
  unfold scan_atom.
  repeat match goal with
         | |- context [strip_prefix ?p s] =>
           let E := fresh "E" in
           destruct (strip_prefix p s) eqn:E;
           [apply strip_prefix_app in E; subst s; intros [= _ <-];
            repeat first [apply leaves_last; reflexivity | apply leaves_skip] |]
         end.
  apply match_number_leaves.
Qed.

Lemma scan_atom_no_depth s : scan_atom s <> ScanDepth.
Proof.
  unfold scan_atom.
  repeat match goal with
         | |- context [strip_prefix ?p s] => destruct (strip_prefix p s); [discriminate |]
         end.
  apply match_number_no_depth.
Qed.

Lemma not_backtick_of_eqb c k : (c =? k)%N = true -> k <> 96%N -> is_backtick c = false.
Proof.
  intros E Hk. apply N.eqb_eq in E; subst c. unfold is_backtick, ch_backtick.
  apply N.eqb_neq, Hk.
Qed.

Lemma scanstring_leaves s start acc str r :
  scanstring start s acc = Scanned str r -> leaves s r.
Proof. apply (scanstring_leaves_bounded (length s)). lia. Qed.

Lemma scan_leaves (fuel : nat) :
  (forall s v r, scan_once fuel s = Scanned v r -> leaves s r)
  /\ (forall s acc v r, parse_members fuel s acc = Scanned v r -> leaves s r)
  /\ (forall s acc v r, parse_items fuel s acc = Scanned v r -> leaves s r).
Proof.
  induction fuel as [| fuel (IHs & IHm & IHi)].
  { repeat split; intros; discriminate. }
  repeat split.
  - intros s v r. cbn [scan_once].
    destruct s as [| c t]; [discriminate |].
    destruct (c =? 34)%N eqn:E34.
    { destruct (scanstring (c :: t) t []) as [str r' | |] eqn:Es; try discriminate.
      intros [= _ <-]. apply leaves_skip. eapply scanstring_leaves; eauto. }
    destruct (c =? 123)%N eqn:E123.
    { destruct (skip_ws t) as [| c1 r1] eqn:Ew.
      - intros H. apply IHm in H. inversion H.
      - destruct (c1 =? 125)%N eqn:E125.
        + intros [= _ <-]. apply leaves_skip, leaves_skip_ws. rewrite Ew.
          apply leaves_last. eapply not_backtick_of_eqb; [exact E125 | discriminate].
        + intros H. apply IHm in H. apply leaves_skip, leaves_skip_ws.
          rewrite Ew. exact H. }
    destruct (c =? 91)%N eqn:E91.
    { destruct (skip_ws t) as [| c1 r1] eqn:Ew.
      - intros H. apply IHi in H. inversion H.
      - destruct (c1 =? 93)%N eqn:E93.
        + intros [= _ <-]. apply leaves_skip, leaves_skip_ws. rewrite Ew.
          apply leaves_last. eapply not_backtick_of_eqb; [exact E93 | discriminate].
        + intros H. apply IHi in H. apply leaves_skip, leaves_skip_ws.
          rewrite Ew. exact H. }
    apply scan_atom_leaves.
  - intros s acc v r. cbn [parse_members].
    destruct s as [| c t]; [discriminate |].
    destruct (c =? 34)%N; [| discriminate].
    destruct (scanstring (c :: t) t []) as [key r1 | |] eqn:Es; try discriminate.
    apply scanstring_leaves in Es.
    destruct (skip_ws r1) as [| c2 r3] eqn:Ew1; [discriminate |].
    destruct (c2 =? 58)%N; [| discriminate].
    destruct (scan_once fuel (skip_ws r3)) as [v' r5 | |] eqn:Ev; try discriminate.
    apply IHs, leaves_skip_ws in Ev.
    assert (L5 : leaves (c :: t) r5).
    { apply leaves_skip. eapply leaves_trans; [exact Es |].
      apply leaves_skip_ws. rewrite Ew1. apply leaves_skip. exact Ev. }
    destruct (skip_ws r5) as [| c3 r7] eqn:Ew2; [discriminate |].
    destruct (c3 =? 125)%N eqn:E125.
    + intros [= _ <-]. eapply leaves_trans; [exact L5 |].
      apply leaves_skip_ws. rewrite Ew2.
      apply leaves_last. eapply not_backtick_of_eqb; [exact E125 | discriminate].
    + destruct (c3 =? 44)%N; [| discriminate].
      intros H. apply IHm, leaves_skip_ws in H.
      eapply leaves_trans; [exact L5 |].
      apply leaves_skip_ws. rewrite Ew2. apply leaves_skip, H.
  - intros s acc v r. cbn [parse_items].
    destruct (scan_once fuel s) as [v' r1 | |] eqn:Ev; try discriminate.
    apply IHs in Ev.
    destruct (skip_ws r1) as [| c r2] eqn:Ew; [discriminate |].
    destruct (c =? 93)%N eqn:E93.
    + intros [= _ <-]. eapply leaves_trans; [exact Ev |].
      apply leaves_skip_ws. rewrite Ew.
      apply leaves_last. eapply not_backtick_of_eqb; [exact E93 | discriminate].
    + destruct (c =? 44)%N; [| discriminate].
      intros H. apply IHi, leaves_skip_ws in H.
      eapply leaves_trans; [exact Ev |].
      apply leaves_skip_ws. rewrite Ew. apply leaves_skip, H.
Qed.

Lemma scanstring_no_depth s start acc : scanstring start s acc <> ScanDepth.
Proof. apply (scanstring_no_depth_bounded (length s)). lia. Qed.

Lemma lstrip_by_length p (s : pystr) : length (lstrip_by p s) <= length s.
Proof.
  induction s as [| c t IH]; simpl; [lia |].
  destruct (p c); simpl; lia.
Qed.

(** The fuel of [fuel_for] is never used up: two units for every character
    are enough. *)
Lemma scan_no_depth (fuel : nat) :
  (forall s, 2 * length s < fuel -> scan_once fuel s <> ScanDepth)
  /\ (forall s acc, 2 * length s + 1 < fuel -> parse_members fuel s acc <> ScanDepth)
  /\ (forall s acc, 2 * length s + 1 < fuel -> parse_items fuel s acc <> ScanDepth).
Proof.
  induction fuel as [| fuel (IHs & IHm & IHi)].
  { repeat split; intros; lia. }
  repeat split.
  - intros s Hf. cbn [scan_once].
    destruct s as [| c t]; [discriminate |]. cbn [length] in Hf.
    destruct (c =? 34)%N.
    { pose proof (scanstring_no_depth t (c :: t) []) as Hn.
      destruct (scanstring (c :: t) t []); congruence. }
    pose proof (lstrip_by_length is_json_ws t) as Hw. fold (skip_ws t) in Hw.
    destruct (c =? 123)%N.
    { destruct (skip_ws t) as [| c1 r1] eqn:Ew.
      - apply IHm. cbn [length]. lia.
      - destruct (c1 =? 125)%N; [discriminate |]. apply IHm. lia. }
    destruct (c =? 91)%N.
    { destruct (skip_ws t) as [| c1 r1] eqn:Ew.
      - apply IHi. cbn [length]. lia.
      - destruct (c1 =? 93)%N; [discriminate |]. apply IHi. lia. }
    apply scan_atom_no_depth.
  - intros s acc Hf. cbn [parse_members].
    destruct s as [| c t]; [discriminate |]. cbn [length] in Hf.
    destruct (c =? 34)%N; [| discriminate].
    pose proof (scanstring_no_depth t (c :: t) []) as Hn.
    destruct (scanstring (c :: t) t []) as [key r1 | |] eqn:Es; try congruence.
    apply scanstring_leaves, leaves_shorter in Es.
    pose proof (lstrip_by_length is_json_ws r1) as Hw1. fold (skip_ws r1) in Hw1.
    destruct (skip_ws r1) as [| c2 r3] eqn:Ew1; [discriminate |]. cbn [length] in Hw1.
    destruct (c2 =? 58)%N; [| discriminate].
    pose proof (lstrip_by_length is_json_ws r3) as Hw3. fold (skip_ws r3) in Hw3.
    pose proof (IHs (skip_ws r3)) as Hs.
    destruct (scan_once fuel (skip_ws r3)) as [v' r5 | |] eqn:Ev;
      [| discriminate | apply Hs; lia].
    apply (proj1 (scan_leaves fuel)), leaves_shorter in Ev.
    pose proof (lstrip_by_length is_json_ws r5) as Hw5. fold (skip_ws r5) in Hw5.
    destruct (skip_ws r5) as [| c3 r7] eqn:Ew5; [discriminate |]. cbn [length] in Hw5.
    destruct (c3 =? 125)%N; [discriminate |].
    destruct (c3 =? 44)%N; [| discriminate].
    pose proof (lstrip_by_length is_json_ws r7) as Hw7. fold (skip_ws r7) in Hw7.
    apply IHm. lia.
  - intros s acc Hf. cbn [parse_items].
    pose proof (IHs s) as Hs.
    destruct (scan_once fuel s) as [v' r1 | |] eqn:Ev;
      [| discriminate | apply Hs; lia].
    apply (proj1 (scan_leaves fuel)), leaves_shorter in Ev.
    pose proof (lstrip_by_length is_json_ws r1) as Hw1. fold (skip_ws r1) in Hw1.
    destruct (skip_ws r1) as [| c r2] eqn:Ew1; [discriminate |]. cbn [length] in Hw1.
    destruct (c =? 93)%N; [discriminate |].
    destruct (c =? 44)%N; [| discriminate].
    pose proof (lstrip_by_length is_json_ws r2) as Hw2. fold (skip_ws r2) in Hw2.
    apply IHi. lia.
Qed.

(** [json.loads] is total on strings, and the only exception it raises is
    [JSONDecodeError]. *)
Lemma loads_raises_decode_errors_only (s : pystr) (e : exn) :
  Json.loads s = inl e -> exn_class_of e = JSONDecodeError.
Proof.
  unfold loads. destruct (startswith _ s); [intros [= <-]; reflexivity |].
  pose proof (proj1 (scan_no_depth (fuel_for s)) (skip_ws s)) as Hd.
  pose proof (lstrip_by_length is_json_ws s) as Hw. fold (skip_ws s) in Hw.
  destruct (scan_once _ _) as [v r | msg h |].
  - destruct (skip_ws r); [discriminate | intros [= <-]; reflexivity].
  - intros [= <-]. reflexivity.
  - exfalso. apply Hd; [unfold fuel_for; lia | reflexivity].
Qed.

(** *** The ends of a valid JSON text *)

Lemma leaves_nonempty s r : leaves s r -> s <> [].
Proof. destruct 1; discriminate. Qed.

Lemma last_is_cons p (c : N) (s : pystr) :
  s <> [] -> last_is p (c :: s) = last_is p s.
Proof. destruct s; [congruence | reflexivity]. Qed.

(** When scanning left nothing, the text ends with a character that is not
    a backtick. *)
Lemma leaves_nothing s : leaves s [] -> last_is is_backtick s = false.
Proof.
  remember [] as r eqn:Er. intros H.
  induction H as [c r Hc | c s r H IH]; subst.
  - exact Hc.
  - rewrite last_is_cons by (eapply leaves_nonempty; eauto). auto.
Qed.

(** When scanning left something, the text ends as what was left ends. *)
Lemma leaves_something p s r :
  leaves s r -> r <> [] -> last_is p s = last_is p r.
Proof.
  intros H Hr. induction H as [c r Hc | c s r H IH].
  - apply last_is_cons, Hr.
  - rewrite last_is_cons by (eapply leaves_nonempty; eauto). auto.
Qed.

Lemma last_is_lstrip p q (s : pystr) :
  lstrip_by q s <> [] -> last_is p s = last_is p (lstrip_by q s).
Proof.
  induction s as [| c t IH]; simpl lstrip_by; [congruence |].
  destruct (q c); [| reflexivity].
  intros H. rewrite <- IH by exact H.
  apply last_is_cons. intros ->. apply H. reflexivity.
Qed.

Lemma lstrip_by_nil_all p (s : pystr) : lstrip_by p s = [] -> forallb p s = true.
Proof.
  induction s as [| c t IH]; simpl; [reflexivity |].
  destruct (p c); [exact IH | discriminate].
Qed.

Lemma last_is_all p q (s : pystr) :
  (forall c, q c = true -> p c = true) ->
  forallb q s = true -> s <> [] -> last_is p s = true.
Proof.
  intros Hpq. induction s as [| c t IH]; [congruence |].
  simpl forallb. intros H _. apply andb_prop in H as [Hc Ht].
  destruct t as [| d t']; [exact (Hpq _ Hc) |].
  rewrite last_is_cons by discriminate. apply IH; [exact Ht | discriminate].
Qed.

(** The decoder's whitespace is whitespace for [strip]. *)
Lemma json_ws_isspace (c : N) : is_json_ws c = true -> isspace c = true.
Proof.
  unfold is_json_ws. intros H.
  repeat (apply orb_prop in H as [H | H]); apply N.eqb_eq in H; subst; reflexivity.
Qed.

Lemma head_not_space_skip_ws (s : pystr) :
  head_is isspace s = false -> skip_ws s = s.
Proof.
  intros H. apply lstrip_by_head. destruct s as [| c t]; [reflexivity |].
  simpl in *. destruct (is_json_ws c) eqn:E; [| reflexivity].
  apply json_ws_isspace in E. congruence.
Qed.

(** A text that starts with a backtick is not JSON. *)
Lemma loads_backtick (t : pystr) (v : pyval) :
  Json.loads (ch_backtick :: t) <> inr v.
Proof.
  unfold loads, fuel_for, ch_backtick. cbn [startswith N.eqb Pos.eqb andb].
  cbn [skip_ws lstrip_by is_json_ws N.eqb Pos.eqb orb].
  cbn [length Nat.mul Nat.add scan_once N.eqb Pos.eqb].
  unfold scan_atom. vm_compute. discriminate.
Qed.

(** A valid JSON text does not start with a backtick, and when it has no
    whitespace at its end it does not end with one. *)
Lemma valid_json_edges (s : pystr) (v : pyval) :
  Json.loads s = inr v ->
  head_is is_backtick s = false
  /\ (head_is isspace s = false -> last_is isspace s = false ->
      last_is is_backtick s = false).
Proof.
  intros Hl. split.
  - destruct s as [| c t]; [reflexivity |]. simpl.
    destruct (is_backtick c) eqn:E; [| reflexivity].
    apply N.eqb_eq in E; subst c. exfalso. exact (loads_backtick t v Hl).
  - intros Hh Hs. unfold loads in Hl.
    destruct (startswith _ s); [discriminate |].
    rewrite (head_not_space_skip_ws s Hh) in Hl.
    destruct (scan_once (fuel_for s) s) as [v' r | |] eqn:Ev; try discriminate.
    apply (proj1 (scan_leaves _)) in Ev.
    destruct r as [| c r'].
    + apply leaves_nothing, Ev.
    + exfalso.
      destruct (skip_ws (c :: r')) eqn:Ew; [| discriminate].
      apply lstrip_by_nil_all in Ew.
      rewrite (leaves_something isspace s (c :: r') Ev) in Hs by discriminate.
      rewrite (last_is_all isspace is_json_ws (c :: r') json_ws_isspace Ew) in Hs
        by discriminate.
      discriminate.
Qed.

(** A string that does not start with a backtick does not start with a
    fence (nor with the reversed fence, which is the same three backticks). *)
Lemma startswith_fence (s : pystr) :
  head_is is_backtick s = false -> startswith (rev fence) s = false /\ startswith fence s = false.
Proof.
  change (rev fence) with [96; 96; 96]%N. change fence with [96; 96; 96]%N.
  destruct s as [| c t]; [split; reflexivity |].
  unfold is_backtick, ch_backtick. cbn [head_is startswith]. intros H.
  rewrite N.eqb_sym, H. split; reflexivity.
Qed.

(** *** The fetcher's boundary *)

(** The interactive fetcher returns a value whatever the network does. *)
Lemma app_get_pronunciation_returns {V} (net : network) (API_KEY word : pystr)
      (m : machine V) :
  exists v, snd (streamlit_app.get_pronunciation net API_KEY word m) = Ok v.
Proof. rewrite app_get_pronunciation_run. eexists; reflexivity. Qed.

(** The batch fetcher lets through whatever [requests.post] raises. *)
Lemma batch_get_pronunciation_propagates {V} (net : network) (API_KEY word : pystr)
      (m : machine V) (e : exn) :
  net (length (posts (trace m))) (batch_request API_KEY word) = Raises e ->
  snd (get_accent_word.get_pronunciation net API_KEY word m) = Raised e.
Proof. intros H. rewrite batch_get_pronunciation_run, H. reflexivity. Qed.

(** The batch fetcher returns when the network answers and the answer is
    either not a 200 or a 200 whose completion text is a string. *)
Lemma batch_get_pronunciation_returns {V} (net : network) (API_KEY word : pystr)
      (m : machine V) (r : response) :
  net (length (posts (trace m))) (batch_request API_KEY word) = Responds r ->
  status_code r <> 200%Z \/ (exists t, completion_text r = inr (PStr t)) ->
  exists v, snd (get_accent_word.get_pronunciation net API_KEY word m) = Ok v.
Proof.
  intros Hnet H. rewrite batch_get_pronunciation_run, Hnet. unfold batch_outcome.
  destruct H as [Hs | [t Ht]].
  - apply Z.eqb_neq in Hs. rewrite Hs. eexists; reflexivity.
  - destruct (status_code r =? 200)%Z; [| eexists; reflexivity].
    rewrite Ht. cbn [snd method_strip].
    destruct (Json.loads _) as [e | v] eqn:El; [| eexists; reflexivity].
    apply loads_raises_decode_errors_only in El.
    unfold is_JSONDecodeError. rewrite El. eexists; reflexivity.
Qed.

(** C1: for the word "toilet" and a network that refuses the connection,
    the batch fetcher does not return a PronunciationError: the
    [ConnectionError] leaves [get_pronunciation] as a raised exception.  The
    interactive fetcher, on the same word and network, returns the error
    object with category "Connection error", and it returns a value for
    every word whatever the network does. *)
Theorem batch_fetcher_raises_past_its_boundary :
  snd (run (get_accent_word.get_pronunciation
              (always (Raises connection_refused)) (py "key") (py "toilet")) tt)
  = Raised connection_refused
  /\ snd (run (streamlit_app.get_pronunciation
                 (always (Raises connection_refused)) (py "key") (py "toilet")) tt)
     = Ok (dict_of [ (py "error", PStr (py "Connection error"));
                     (py "details", PStr (py "Connection refused"));
                     (py "word", PStr (py "toilet")) ])
  /\ (forall V net API_KEY word (m : machine V),
         exists v, snd (streamlit_app.get_pronunciation net API_KEY word m) = Ok v).
Proof.
  split; [reflexivity |]. split; [reflexivity |].
  intros V net API_KEY word m. apply app_get_pronunciation_returns.
Qed.

(** *** The shape of what a fetcher returns *)

Lemma app_handled_is_error (word : pystr) (e : exn) :
  is_PronunciationError (app_handled word e) = true.
Proof. destruct e as [[] msg]; reflexivity. Qed.

Lemma request_failed_is_error (r : response) :
  is_PronunciationError (dict_of (request_failed r)) = true.
Proof. reflexivity. Qed.

Lemma request_failed_word_is_error (word : pystr) (r : response) :
  is_PronunciationError (with_word word (request_failed r)) = true.
Proof. reflexivity. Qed.

Lemma parse_failure_is_error (output_text : pyval) :
  is_PronunciationError (dict_of (parse_failure output_text)) = true.
Proof. reflexivity. Qed.

Lemma parse_failure_word_is_error (word : pystr) (output_text : pyval) :
  is_PronunciationError (with_word word (parse_failure output_text)) = true.
Proof. reflexivity. Qed.

(** A value has a [strip] method only when it is a string, and the cleaned
    text of the fetchers is then [cleanup] of it. *)
Lemma method_strip_inv (x : pyval) (stripped : pystr) :
  method_strip x = inr stripped ->
  exists s, x = PStr s /\ str_strip (str_strip_chars fence stripped) = cleanup s.
Proof.
  destruct x; try discriminate. intros [= <-]. eexists; split; reflexivity.
Qed.

(** What the interactive fetcher returns is an error object or the parsed
    completion. *)
Lemma app_value_shapes (word : pystr) (o : post_outcome) :
  is_PronunciationError (app_value word o) = true
  \/ parsed_from_completion o (app_value word o).
Proof.
  unfold app_value. destruct o as [r | e]; [| left; apply app_handled_is_error].
  destruct (status_code r =? 200)%Z eqn:Es;
    [| left; apply request_failed_word_is_error].
  destruct (completion_text r) as [e | output_text] eqn:Ec;
    [left; apply app_handled_is_error |].
  destruct (method_strip output_text) as [e | stripped] eqn:Em;
    [left; apply app_handled_is_error |].
  apply method_strip_inv in Em as (s & -> & Ecl). rewrite Ecl.
  destruct (Json.loads (cleanup s)) as [e | v] eqn:El.
  - left. destruct (is_JSONDecodeError e);
      [apply parse_failure_word_is_error | apply app_handled_is_error].
  - right. exists r, s. apply Z.eqb_eq in Es. auto.
Qed.

(** What the batch fetcher returns, when it returns, is an error object or
    the parsed completion. *)
Lemma batch_outcome_shapes (o : post_outcome) (v : pyval) :
  batch_outcome o = Ok v ->
  is_PronunciationError v = true \/ parsed_from_completion o v.
Proof.
  unfold batch_outcome. destruct o as [r | e]; [| discriminate].
  destruct (status_code r =? 200)%Z eqn:Es.
  2:{ intros [= <-]. left; apply request_failed_is_error. }
  destruct (completion_text r) as [e | output_text] eqn:Ec; [discriminate |].
  destruct (method_strip output_text) as [e | stripped] eqn:Em; [discriminate |].
  apply method_strip_inv in Em as (s & -> & Ecl). rewrite Ecl.
  destruct (Json.loads (cleanup s)) as [e | v'] eqn:El.
  - destruct (is_JSONDecodeError e); [| discriminate].
    intros [= <-]. left; apply parse_failure_is_error.
  - intros [= <-]. right. exists r, s. apply Z.eqb_eq in Es. auto.
Qed.

(** C2, as the code has it: the interactive fetcher returns exactly one
    value and the batch fetcher, whenever it returns, returns one value; that
    value is either a PronunciationError whose [error] key is populated, or
    the value parsed from the cleaned completion text of a status-200
    response, returned as parsed, without a check for the three keys. *)
Theorem fetcher_returns_error_or_parsed_completion
        {V} (net : network) (API_KEY word : pystr) (m : machine V) :
  (exists v,
      snd (streamlit_app.get_pronunciation net API_KEY word m) = Ok v
      /\ (is_PronunciationError v = true
          \/ parsed_from_completion
               (net (length (posts (trace m))) (app_request API_KEY word)) v))
  /\ (forall v,
         snd (get_accent_word.get_pronunciation net API_KEY word m) = Ok v ->
         is_PronunciationError v = true
         \/ parsed_from_completion
              (net (length (posts (trace m))) (batch_request API_KEY word)) v).
Proof.
  split.
  - rewrite app_get_pronunciation_run. eexists; split; [reflexivity |].
    apply app_value_shapes.
  - intros v. rewrite batch_get_pronunciation_run. apply batch_outcome_shapes.
Qed.

(** C2, as the code has it, at a status-500 response: the batch fetcher
    returns, and what it returns is a PronunciationError. *)
Lemma fetcher_returns_error_or_parsed_completion_witness :
  is_PronunciationError
    (dict_of (request_failed (Response 500 (py "internal error")))) = true
  \/ parsed_from_completion
       (always (Responds (Response 500 (py "internal error")))
               (length (posts (trace (Machine tt [])))) (batch_request (py "key") (py "toilet")))
       (dict_of (request_failed (Response 500 (py "internal error")))).
Proof.
  apply (proj2 (fetcher_returns_error_or_parsed_completion
                  (always (Responds (Response 500 (py "internal error"))))
                  (py "key") (py "toilet") (Machine tt []))).
  reflexivity.
Defined.

(** C2 as stated fails: when the completion text is the empty JSON object,
    both fetchers return it, and it is neither a PronunciationResult nor a
    PronunciationError. *)
Lemma fetcher_returns_value_of_neither_shape :
  snd (run (streamlit_app.get_pronunciation
              (always (Responds (completion_response (py "{}")))) (py "key") (py "toilet")) tt)
  = Ok (PDict [])
  /\ snd (run (get_accent_word.get_pronunciation
                 (always (Responds (completion_response (py "{}")))) (py "key") (py "toilet")) tt)
     = Ok (PDict [])
  /\ is_PronunciationResult (PDict []) = false
  /\ is_PronunciationError (PDict []) = false.
Proof. repeat split; vm_compute; reflexivity. Qed.

(** *** The timeout of the request *)

(** C3: the request the batch fetcher sends carries no timeout (the call
    names none, so a hung connection blocks the run without a bound), while
    the request the interactive fetcher sends carries one of 30 seconds. *)
Theorem batch_request_carries_no_timeout
        {V} (net : network) (API_KEY word : pystr) (m : machine V) :
  (exists req,
      trace (fst (get_accent_word.get_pronunciation net API_KEY word m))
      = trace m ++ [EvPost req]
      /\ timeout req = None)
  /\ (exists req,
         trace (fst (streamlit_app.get_pronunciation net API_KEY word m))
         = trace m ++ [EvPost req]
         /\ timeout req = Some 30%Z).
Proof.
  split.
  - rewrite batch_get_pronunciation_run. eexists; split; reflexivity.
  - rewrite app_get_pronunciation_run. eexists; split; reflexivity.
Qed.

(** *** The configuration check *)

(** Without the credential neither program reaches a fetcher call: the
    batch runner raises [ValueError] before anything else happens, and the
    form shows the error and stops before any widget is drawn. *)
Lemma missing_api_key_stops_the_run
      (net : network) (env_API_KEY : option pystr) (u : streamlit_app.ui)
      (v0 : list pyval) (l0 : streamlit_app.locals) :
  env_truthy env_API_KEY = false ->
  run (get_accent_word.main net env_API_KEY) v0
  = (Machine v0 [],
     Raised (Exn ValueError
               (py "API_KEY not found in environment variables. Please set it in the .env file.")))
  /\ run (streamlit_app.main net env_API_KEY u) l0
     = (Machine l0 [EvStError (py "API_KEY not found. Please contact the administrator.")],
        Stopped).
Proof.
  intros H. unfold run, get_accent_word.main, streamlit_app.main.
  rewrite H. split; reflexivity.
Qed.


(** C4: without the credential the batch runner raises [ValueError] before
    any request and the form shows the error and stops before any widget is
    drawn.  But with the credential set and a network that refuses the
    connection, the batch run ends in the uncaught [ConnectionError] of the
    first word: after its one request nothing is written and nothing is
    printed.  A failure other than the configuration error is fatal to the
    batch process. *)
Theorem batch_run_dies_of_a_word_failure :
  run (get_accent_word.main (always (Raises connection_refused)) None) []
  = (Machine [] [],
     Raised (Exn ValueError
               (py "API_KEY not found in environment variables. Please set it in the .env file.")))
  /\ run (streamlit_app.main (always (Raises connection_refused)) None
                             (streamlit_app.UI (py "toilet, computer, water") true))
         (streamlit_app.Locals [] 0 0)
     = (Machine (streamlit_app.Locals [] 0 0)
                [EvStError (py "API_KEY not found. Please contact the administrator.")],
        Stopped)
  /\ run (get_accent_word.main (always (Raises connection_refused)) (Some (py "key"))) []
     = (Machine [] [EvPost (batch_request (py "key") (py "toilet"))],
        Raised connection_refused).
Proof. repeat split; reflexivity. Qed.

(** *** A completion that is no JSON *)



(** The raw output keeps the whitespace and the fence the cleanup removes. *)
Example parse_failure_keeps_the_fence :
  snd (run (streamlit_app.get_pronunciation
              (always (Responds (completion_response (py "  ```not json```  "))))
              (py "key") (py "toilet")) tt)
  = Ok (dict_of [ (py "error", PStr (py "Failed to parse JSON from LLM output"));
                  (py "raw_output", PStr (py "  ```not json```  "));
                  (py "word", PStr (py "toilet")) ]).
Proof. vm_compute. reflexivity. Qed.

(** *** The cleanup on clean JSON *)

(** C6: the cleanup is the identity on every already-clean JSON string.  A
    string with no whitespace and no backtick at its ends is returned
    unchanged; and a valid JSON text with no surrounding whitespace is such
    a string (it can neither start nor end with a backtick), has no fence,
    and is returned unchanged. *)
Theorem cleanup_is_identity_on_clean_json :
  (forall s,
      no_surrounding_whitespace s ->
      head_is is_backtick s = false -> last_is is_backtick s = false ->
      cleanup s = s)
  /\ (forall s v,
         Json.loads s = inr v -> no_surrounding_whitespace s ->
         no_fencing s /\ cleanup s = s).
Proof.
  split; [exact cleanup_clean |].
  intros s v Hl [Hh Hs].
  destruct (valid_json_edges s v Hl) as [Bh Bl].
  specialize (Bl Hh Hs). split.
  - split.
    + apply (proj2 (startswith_fence s Bh)).
    + unfold endswith. rewrite last_is_rev in Bl.
      apply (proj1 (startswith_fence (rev s) Bl)).
  - apply cleanup_clean; [split; assumption | assumption | assumption].
Qed.

(** C6 at the example object of the prompt. *)
Lemma cleanup_is_identity_on_clean_json_witness :
  no_fencing toilet_json /\ cleanup toilet_json = toilet_json.
Proof.
  apply (proj2 cleanup_is_identity_on_clean_json toilet_json toilet_result).
  - vm_compute. reflexivity.
  - split; reflexivity.
Defined.

(** *** The word list of the form *)

(** With no word, the form shows the warning and makes no request. *)
Lemma on_convert_without_words
      (net : network) (API_KEY input : pystr) (m : machine streamlit_app.locals) :
  streamlit_app.words input = [] ->
  streamlit_app.on_convert net API_KEY input m
  = (Machine (vars m) (trace m ++ [EvStWarning (py "Please enter at least one word.")]),
     Ok tt).
Proof.
  intros H. unfold streamlit_app.on_convert. rewrite H. reflexivity.
Qed.

(** C7: the word list of the form is the input split on commas, each piece
    trimmed, the empty pieces discarded.  "toilet, computer, water" gives the
    three words; an input of separators and whitespace only gives no word,
    and then the form shows the warning and makes no fetcher call. *)
Theorem words_split_trim_discard :
  (forall input, streamlit_app.words input = split_trim_discard input)
  /\ streamlit_app.words (py "toilet, computer, water")
     = [py "toilet"; py "computer"; py "water"]
  /\ streamlit_app.words (py " , ,  ") = []
  /\ (forall net API_KEY input m,
         forallb separator_or_space input = true ->
         streamlit_app.words input = []
         /\ streamlit_app.on_convert net API_KEY input m
            = (Machine (vars m)
                       (trace m ++ [EvStWarning (py "Please enter at least one word.")]),
               Ok tt)
         /\ posts (trace (fst (streamlit_app.on_convert net API_KEY input m)))
            = posts (trace m)).
Proof.
  split; [exact words_refines |].
  split; [reflexivity |].
  split; [reflexivity |].
  intros net API_KEY input m H.
  pose proof (words_of_separators input H) as Hw.
  rewrite (on_convert_without_words net API_KEY input m Hw).
  repeat split; [exact Hw |].
  cbn [fst trace]. unfold posts. rewrite flat_map_app. cbn. apply app_nil_r.
Qed.

(** C7 at the input " , ,  ": pressing the button shows the warning, and the
    trace of the run holds no request. *)
Lemma words_split_trim_discard_witness :
  streamlit_app.words (py " , ,  ") = []
  /\ streamlit_app.on_convert (always (Raises connection_refused)) (py "key") (py " , ,  ")
                              (Machine (streamlit_app.Locals [] 0 0) [])
     = (Machine (streamlit_app.Locals [] 0 0)
                [EvStWarning (py "Please enter at least one word.")],
        Ok tt)
  /\ posts (trace (fst (streamlit_app.on_convert
                          (always (Raises connection_refused)) (py "key") (py " , ,  ")
                          (Machine (streamlit_app.Locals [] 0 0) []))))
     = [].
Proof.
  apply (proj2 (proj2 (proj2 words_split_trim_discard))
               (always (Raises connection_refused)) (py "key") (py " , ,  ")
               (Machine (streamlit_app.Locals [] 0 0) [])).
  reflexivity.
Defined.

(** *** Backticks of any number *)



(** The fenced example of the specification: three backticks on each side. *)
Example fenced_example_parses :
  snd (run (streamlit_app.get_pronunciation
              (always (Responds (completion_response (py "```" ++ toilet_json ++ py "```"))))
              (py "key") (py "toilet")) tt)
  = Ok toilet_result
  /\ is_PronunciationResult toilet_result = true.
Proof. split; vm_compute; reflexivity. Qed.

(** A status of 500 with the body "internal error". *)
Example status_500_is_reported :
  snd (run (get_accent_word.get_pronunciation
              (always (Responds (Response 500 (py "internal error"))))
              (py "key") (py "toilet")) tt)
  = Ok (dict_of [ (py "error", PStr (py "API request failed with status 500"));
                  (py "details", PStr (py "internal error")) ]).
Proof. vm_compute. reflexivity. Qed.

(** *** The word in the errors of the interactive fetcher *)





(** *** The counters of the form *)

(** After the loop over a non-empty word list the form draws the results
    and the three counters; the run ends normally, one request was sent per
    word, and the successes and failures add up to the number of words. *)
Lemma on_convert_display
      (net : network) (API_KEY input : pystr) (m : machine streamlit_app.locals) :
  streamlit_app.words input <> [] ->
  exists mf before,
    streamlit_app.on_convert net API_KEY input m = (mf, Ok tt)
    /\ trace mf
       = before ++ results_display (length (streamlit_app.words input)) (vars mf)
    /\ length (posts (trace mf))
       = length (posts (trace m)) + length (streamlit_app.words input)
    /\ streamlit_app.successful_conversions (vars mf)
       + streamlit_app.failed_conversions (vars mf)
       = length (streamlit_app.words input)
    /\ length (streamlit_app.words input)
       <= length (streamlit_app.all_outputs (vars mf)).
Proof.
  intros Hne. unfold streamlit_app.on_convert.
  destruct (streamlit_app.words input) as [| w ws] eqn:Ew; [congruence |].
  unfold bind, emit, modify_vars, get_vars. cbn [vars trace].
  match goal with
  | |- context [for_each ?l ?f ?m0] =>
    destruct (for_each_process_word net API_KEY l m0)
      as (m' & Hrun & Hsum & Hposts & Hlen)
  end.
  rewrite Hrun. cbn [vars trace] in *.
  eexists. exists (trace m'). split; [reflexivity |].
  cbn [vars trace]. unfold results_display.
  split; [rewrite <- !app_assoc; reflexivity |].
  split.
  - unfold posts in *. rewrite !flat_map_app, !length_app in *.
    cbn [flat_map length app] in *. lia.
  - cbn [streamlit_app.successful_conversions streamlit_app.failed_conversions
         streamlit_app.all_outputs length] in *. lia.
Qed.

(** When, in addition, every value the fetcher returns is a dict, the list
    of results has one entry per word and the failures are its entries with
    an ["error"] key. *)
Lemma on_convert_counts_dicts
      (net : network) (API_KEY input : pystr) (m : machine streamlit_app.locals) :
  streamlit_app.words input <> [] ->
  (forall n w, is_dict (app_value w (net n (app_request API_KEY w))) = true) ->
  exists mf,
    streamlit_app.on_convert net API_KEY input m = (mf, Ok tt)
    /\ length (streamlit_app.all_outputs (vars mf))
       = length (streamlit_app.words input)
    /\ streamlit_app.failed_conversions (vars mf)
       = count_errors (streamlit_app.all_outputs (vars mf)).
Proof.
  intros Hne Hd. unfold streamlit_app.on_convert.
  destruct (streamlit_app.words input) as [| w ws] eqn:Ew; [congruence |].
  unfold bind, emit, modify_vars, get_vars. cbn [vars trace].
  match goal with
  | |- context [for_each ?l ?f ?m0] =>
    destruct (for_each_process_word_dicts net API_KEY l m0 Hd)
      as (m' & Hrun & Hlen & Hcnt)
  end.
  rewrite Hrun. cbn [vars trace] in *.
  eexists. split; [reflexivity |]. cbn [vars].
  cbn [streamlit_app.all_outputs streamlit_app.failed_conversions length] in *.
  unfold count_errors in *. cbn [filter length] in *. lia.
Qed.

(** C10: for the one word "x" and a model that answers with the completion
    text "42", the run of the form ends normally with two entries in the
    result list for one word: the number the fetcher returned, and the
    "Critical processing error" entry appended when testing the number for
    an ["error"] key raised [TypeError] after the number had been appended.
    The counters drawn are 1 word, 0 successes, 1 failure. *)
Theorem form_appends_twice_for_a_scalar :
  snd scalar_completion_run = Ok tt
  /\ streamlit_app.words (py "x") = [py "x"]
  /\ streamlit_app.all_outputs (vars (fst scalar_completion_run))
     = [ PInt 42;
         critical_error
           (Exn TypeError (py "argument of type 'int' is not iterable")) (py "x") ]
  /\ length (streamlit_app.all_outputs (vars (fst scalar_completion_run))) = 2
  /\ streamlit_app.successful_conversions (vars (fst scalar_completion_run)) = 0
  /\ streamlit_app.failed_conversions (vars (fst scalar_completion_run)) = 1
  /\ exists before,
       trace (fst scalar_completion_run)
       = before ++ results_display 1 (vars (fst scalar_completion_run)) ++ [EvStSidebar].
Proof.
  repeat split; try (vm_compute; reflexivity).
  exists (firstn 7 (trace (fst scalar_completion_run))).
  vm_compute. reflexivity.
Qed.


(* ===================================================================== *)
(** ** Further properties of the two files *)
(* ===================================================================== *)

Import Coverage.

(** *** More on stripping *)

Section StripMore.

Variable p : N -> bool.

(** What [lstrip] removes is a prefix of characters that satisfy [p]. *)
Lemma lstrip_by_prefix (s : pystr) :
  exists pre, s = pre ++ lstrip_by p s /\ forallb p pre = true.
Proof.
  induction s as [| c t (pre & E & Hp)]; [exists []; auto |].
  simpl. destruct (p c) eqn:Ec.
  - exists (c :: pre). simpl. rewrite Ec, Hp. split; [f_equal; exact E | reflexivity].
  - exists []. auto.
Qed.

Lemma forallb_rev {A} (q : A -> bool) (l : list A) : forallb q (rev l) = forallb q l.
Proof.
  induction l as [| x t IH]; [reflexivity |].
  simpl. rewrite forallb_app, IH. simpl. rewrite andb_true_r. apply andb_comm.
Qed.

(** What [rstrip] removes is a suffix of characters that satisfy [p]. *)
Lemma rstrip_by_suffix (s : pystr) :
  exists suf, s = rstrip_by p s ++ suf /\ forallb p suf = true.
Proof.
  unfold rstrip_by. destruct (lstrip_by_prefix (rev s)) as (pre & E & Hp).
  exists (rev pre). split.
  - rewrite <- rev_app_distr, <- E. symmetry; apply rev_involutive.
  - rewrite forallb_rev. exact Hp.
Qed.

(** [strip] only takes from the two ends. *)
Lemma strip_by_infix (s : pystr) :
  exists pre suf,
    s = pre ++ strip_by p s ++ suf /\ forallb p pre = true /\ forallb p suf = true.
Proof.
  unfold strip_by.
  destruct (lstrip_by_prefix s) as (pre & E1 & H1).
  destruct (rstrip_by_suffix (lstrip_by p s)) as (suf & E2 & H2).
  exists pre, suf. split; [| auto].
  rewrite <- E2. exact E1.
Qed.

Lemma rstrip_by_length (s : pystr) : length (rstrip_by p s) <= length s.
Proof.
  unfold rstrip_by. rewrite length_rev.
  etransitivity; [apply lstrip_by_length |]. rewrite length_rev. lia.
Qed.

Lemma strip_by_length (s : pystr) : length (strip_by p s) <= length s.
Proof.
  unfold strip_by. etransitivity; [apply rstrip_by_length | apply lstrip_by_length].
Qed.

Lemma lstrip_by_shorter (s : pystr) :
  head_is p s = true -> length (lstrip_by p s) < length s.
Proof.
  destruct s as [| c t]; [discriminate |]. simpl. intros ->.
  pose proof (lstrip_by_length p t). lia.
Qed.

Lemma rstrip_by_shorter (s : pystr) :
  last_is p s = true -> length (rstrip_by p s) < length s.
Proof.
  intros H. unfold rstrip_by. rewrite length_rev.
  rewrite last_is_rev in H. apply lstrip_by_shorter in H.
  rewrite length_rev in H. exact H.
Qed.

(** A string changed by [strip] is made shorter. *)
Lemma strip_by_shorter (s : pystr) :
  head_is p s = true \/ last_is p s = true -> length (strip_by p s) < length s.
Proof.
  unfold strip_by. intros [H | H].
  - apply lstrip_by_shorter in H. pose proof (rstrip_by_length (lstrip_by p s)). lia.
  - destruct (head_is p s) eqn:Hh.
    + apply lstrip_by_shorter in Hh.
      pose proof (rstrip_by_length (lstrip_by p s)). lia.
    + rewrite lstrip_by_head by exact Hh. apply rstrip_by_shorter, H.
Qed.

(** What [strip] returns neither starts nor ends with a stripped character. *)
Lemma strip_by_head_is (s : pystr) : head_is p (strip_by p s) = false.
Proof.
  unfold strip_by. pose proof (lstrip_by_head_is p s) as Hh.
  destruct (lstrip_by p s) as [| x t]; [reflexivity |].
  unfold rstrip_by. simpl rev. rewrite lstrip_by_snoc.
  destruct (lstrip_by p (rev t)) as [| y r].
  - simpl in Hh. rewrite Hh. exact Hh.
  - rewrite rev_app_distr. exact Hh.
Qed.

Lemma strip_by_last_is (s : pystr) : last_is p (strip_by p s) = false.
Proof. apply rstrip_by_last_is. Qed.

(** [strip] keeps what holds of every character. *)
Lemma forallb_lstrip_by (q : N -> bool) (s : pystr) :
  forallb q s = true -> forallb q (lstrip_by p s) = true.
Proof.
  induction s as [| c t IH]; [reflexivity |].
  simpl. intros H. destruct (p c); [| exact H].
  apply andb_prop in H as [_ H]. auto.
Qed.

Lemma forallb_strip_by (q : N -> bool) (s : pystr) :
  forallb q s = true -> forallb q (strip_by p s) = true.
Proof.
  intros H. unfold strip_by, rstrip_by.
  rewrite forallb_rev. apply forallb_lstrip_by. rewrite forallb_rev.
  apply forallb_lstrip_by, H.
Qed.

End StripMore.

(** *** What the cleanup does to any text *)

Lemma forallb_weaken {A} (q q' : A -> bool) (l : list A) :
  (forall x, q x = true -> q' x = true) -> forallb q l = true -> forallb q' l = true.
Proof.
  intros Hq. induction l as [| x t IH]; [reflexivity |].
  simpl. intros H. apply andb_prop in H as [Hx Ht].
  rewrite (Hq _ Hx), (IH Ht). reflexivity.
Qed.

Lemma isspace_strippable (c : N) : isspace c = true -> strippable c = true.
Proof. unfold strippable. intros ->. reflexivity. Qed.

Lemma backtick_strippable (c : N) : is_backtick c = true -> strippable c = true.
Proof. unfold strippable. intros ->. apply orb_true_r. Qed.

(** X1: the cleanup never touches the inside of a text: the cleaned text is
    the original without a prefix and a suffix, and what is cut off holds
    only whitespace and backticks. *)
Theorem cleanup_only_trims_the_ends (text : pystr) :
  exists pre suf,
    text = pre ++ cleanup text ++ suf
    /\ forallb strippable pre = true
    /\ forallb strippable suf = true.
Proof.
  unfold cleanup, str_strip. rewrite str_strip_chars_fence.
  destruct (strip_by_infix isspace text) as (p1 & s1 & E1 & Hp1 & Hs1).
  destruct (strip_by_infix is_backtick (strip_by isspace text))
    as (p2 & s2 & E2 & Hp2 & Hs2).
  destruct (strip_by_infix isspace (strip_by is_backtick (strip_by isspace text)))
    as (p3 & s3 & E3 & Hp3 & Hs3).
  exists (p1 ++ p2 ++ p3), (s3 ++ s2 ++ s1). split.
  - rewrite E1 at 1. rewrite E2 at 1. rewrite E3 at 1.
    rewrite <- !app_assoc. reflexivity.
  - rewrite !forallb_app.
    rewrite (forallb_weaken _ _ _ isspace_strippable Hp1),
            (forallb_weaken _ _ _ backtick_strippable Hp2),
            (forallb_weaken _ _ _ isspace_strippable Hp3),
            (forallb_weaken _ _ _ isspace_strippable Hs1),
            (forallb_weaken _ _ _ backtick_strippable Hs2),
            (forallb_weaken _ _ _ isspace_strippable Hs3).
    split; reflexivity.
Qed.

(** The cleaned text has no whitespace at its ends. *)
Lemma cleanup_no_surrounding_whitespace (text : pystr) :
  no_surrounding_whitespace (cleanup text).
Proof.
  unfold cleanup, str_strip. split; [apply strip_by_head_is | apply strip_by_last_is].
Qed.

(** X2: cleaning twice is cleaning once exactly when the cleaned text has no
    backtick at either end.  It is not so for every text: backticks that
    whitespace separates from the rest survive one cleanup and fall to the
    next, as in "` `a", which is cleaned to "`a" and then to "a". *)
Theorem cleanup_twice (text : pystr) :
  (cleanup (cleanup text) = cleanup text
   <-> head_is is_backtick (cleanup text) = false
       /\ last_is is_backtick (cleanup text) = false)
  /\ cleanup (py "` `a") = py "`a"
  /\ cleanup (cleanup (py "` `a")) = py "a".
Proof.
  split; [| split; reflexivity].
  pose proof (cleanup_no_surrounding_whitespace text) as Hw.
  split.
  - intros E.
    destruct (head_is is_backtick (cleanup text)) eqn:Hh;
      destruct (last_is is_backtick (cleanup text)) eqn:Hl; auto; exfalso.
    all: apply (f_equal (@length N)) in E; revert E;
      unfold cleanup at 1, str_strip; rewrite str_strip_chars_fence;
      rewrite (strip_by_clean isspace (cleanup text) (proj1 Hw) (proj2 Hw));
      pose proof (strip_by_shorter is_backtick (cleanup text)) as Hs;
      pose proof (strip_by_length isspace (strip_by is_backtick (cleanup text)));
      intros E; assert (length (strip_by is_backtick (cleanup text))
                        < length (cleanup text)) by (apply Hs; auto); lia.
  - intros [Hh Hl]. apply cleanup_clean; assumption.
Qed.

(** X2 at the fenced text " ```{}``` ": its cleaned form, "{}", has no
    backtick at its ends, and cleaning it again changes nothing. *)
Lemma cleanup_twice_witness :
  cleanup (cleanup (py " ```{}``` ")) = cleanup (py " ```{}``` ").
Proof.
  apply (proj2 (proj1 (cleanup_twice (py " ```{}``` ")))).
  split; reflexivity.
Defined.

(** *** What the word list of the form holds *)

Lemma isspace_not_comma (c : N) : isspace c = true -> negb (c =? ch_comma)%N = true.
Proof.
  intros H. destruct (c =? ch_comma)%N eqn:E; [| reflexivity].
  apply N.eqb_eq in E; subst c. discriminate.
Qed.

(** No piece of a split holds the separator. *)
Lemma split_pieces_no_comma (s : pystr) :
  Forall (fun piece => no_comma piece = true) (str_split ch_comma s).
Proof.
  induction s as [| c t IH]; simpl.
  - constructor; [reflexivity | constructor].
  - destruct (c =? ch_comma)%N eqn:E.
    + constructor; [reflexivity | exact IH].
    + destruct (str_split ch_comma t) as [| q qs].
      * constructor; [unfold no_comma; simpl; rewrite E; reflexivity | constructor].
      * inversion IH; subst. constructor; [| assumption].
        unfold no_comma in *. simpl. rewrite E. assumption.
Qed.

Lemma words_trimmed (input : pystr) :
  Forall (fun w => w <> [] /\ no_surrounding_whitespace w /\ no_comma w = true)
         (streamlit_app.words input).
Proof.
  pose proof (words_clean input) as Hc.
  rewrite Forall_forall in *. intros w Hw.
  destruct (Hc w Hw) as [Hne Hws]. repeat split; try assumption; try apply Hws.
  unfold streamlit_app.words in Hw.
  apply in_map_iff in Hw as (piece & <- & Hin).
  apply filter_In in Hin as [Hin _].
  pose proof (split_pieces_no_comma input) as Hs.
  rewrite Forall_forall in Hs. specialize (Hs piece Hin).
  unfold no_comma, str_strip in *. apply forallb_strip_by, Hs.
Qed.

(** X3: every word the form processes is non-empty, has no whitespace at
    its ends and holds no comma, whatever was typed; and no more words are
    processed than the input has commas, plus one. *)
Theorem words_are_trimmed_words (input : pystr) :
  Forall (fun w => w <> [] /\ no_surrounding_whitespace w /\ no_comma w = true)
         (streamlit_app.words input)
  /\ length (streamlit_app.words input)
     <= S (length (filter (fun c => c =? ch_comma)%N input)).
Proof.
  split; [apply words_trimmed |].
  unfold streamlit_app.words. rewrite length_map.
  etransitivity; [apply filter_length_le |].
  induction input as [| c t IH]; [simpl; lia |].
  cbn [str_split filter]. destruct (c =? ch_comma)%N; cbn [length].
  - lia.
  - destruct (str_split ch_comma t); cbn [length] in *; lia.
Qed.

Lemma split_no_comma (w : pystr) :
  no_comma w = true -> str_split ch_comma w = [w].
Proof.
  induction w as [| c t IH]; [reflexivity |].
  unfold no_comma. simpl. intros H. apply andb_prop in H as [Hc Ht].
  apply negb_true_iff in Hc. rewrite Hc, (IH Ht). reflexivity.
Qed.

Lemma split_app_comma (w rest : pystr) :
  no_comma w = true ->
  str_split ch_comma (w ++ ch_comma :: rest) = w :: str_split ch_comma rest.
Proof.
  induction w as [| c t IH].
  - intros _. cbn [app str_split]. rewrite N.eqb_refl. reflexivity.
  - unfold no_comma. cbn [forallb app str_split]. intros H.
    apply andb_prop in H as [Hc Ht].
    apply negb_true_iff in Hc. rewrite Hc, (IH Ht). reflexivity.
Qed.

Lemma lstrip_by_app_all p (pad s : pystr) :
  forallb p pad = true -> lstrip_by p (pad ++ s) = lstrip_by p s.
Proof.
  induction pad as [| c t IH]; [reflexivity |].
  simpl. intros H. apply andb_prop in H as [-> Ht]. auto.
Qed.

(** Whitespace before a trimmed word is stripped, and nothing else. *)
Lemma strip_padded (pad w : pystr) :
  forallb isspace pad = true -> no_surrounding_whitespace w ->
  str_strip (pad ++ w) = w.
Proof.
  intros Hp [Hh Hl]. unfold str_strip, strip_by.
  rewrite lstrip_by_app_all by exact Hp.
  rewrite lstrip_by_head by exact Hh. apply rstrip_by_last, Hl.
Qed.

(** The words of a list of trimmed words written with ", " between them
    (and whitespace before the first) are these words. *)
Lemma words_of_comma_separated (ws : list pystr) :
  forall w pad,
    Forall (fun w => w <> [] /\ no_surrounding_whitespace w /\ no_comma w = true)
           (w :: ws) ->
    forallb isspace pad = true ->
    streamlit_app.words (pad ++ comma_separated (w :: ws)) = w :: ws.
Proof.
  induction ws as [| w2 ws' IH]; intros w pad Hall Hpad.
  - inversion Hall as [| ? ? (Hne & Hws & Hnc) _]; subst.
    unfold comma_separated, streamlit_app.words. cbn [str_join].
    assert (Hpc : no_comma (pad ++ w) = true).
    { unfold no_comma in *. rewrite forallb_app, Hnc, andb_true_r.
      apply (forallb_weaken isspace); [exact isspace_not_comma | exact Hpad]. }
    pose proof (strip_padded pad w Hpad Hws) as E.
    rewrite (split_no_comma _ Hpc). cbn [filter]. rewrite E.
    destruct w; [congruence |]. cbn [str_truthy map]. rewrite E. reflexivity.
  - inversion Hall as [| ? ? (Hne & Hws & Hnc) Hrest]; subst.
    unfold comma_separated. cbn [str_join]. fold (comma_separated (w2 :: ws')).
    change (py ", ") with ([ch_comma] ++ [32%N]).
    rewrite <- !app_assoc. rewrite (app_assoc pad w).
    cbn [app].
    assert (Hpc : no_comma (pad ++ w) = true).
    { unfold no_comma in *. rewrite forallb_app, Hnc, andb_true_r.
      apply (forallb_weaken isspace); [exact isspace_not_comma | exact Hpad]. }
    pose proof (strip_padded pad w Hpad Hws) as E.
    unfold streamlit_app.words. rewrite (split_app_comma _ _ Hpc). cbn [filter].
    rewrite E.
    destruct w as [| c t]; [congruence |]. cbn [str_truthy map]. rewrite E. f_equal.
    apply (IH w2 [32%N] Hrest). reflexivity.
Qed.

(** X4: the word list is a fixed point of the form's parsing: the words,
    written back with ", " between them as in the pre-filled text, are
    parsed to the same words. *)
Theorem words_of_words (input : pystr) :
  streamlit_app.words (comma_separated (streamlit_app.words input))
  = streamlit_app.words input.
Proof.
  pose proof (words_trimmed input) as H.
  destruct (streamlit_app.words input) as [| w ws]; [reflexivity |].
  apply (words_of_comma_separated ws w [] H). reflexivity.
Qed.

(** *** How a fetcher call ends, by what the network answered *)








(** X6: only the status 200 is a success.  For every other status, the
    other 2xx ones included, both fetchers return the "API request failed"
    object with the status in decimal and the body as received under
    [details]; the body is not parsed. *)
Theorem other_statuses_are_failures
        {V} (net : network) (API_KEY word : pystr) (m : machine V) (r : response) :
  (forall req, net (length (posts (trace m))) req = Responds r) ->
  status_code r <> 200%Z ->
  snd (get_accent_word.get_pronunciation net API_KEY word m)
  = Ok (dict_of [ (py "error",
                   PStr (py "API request failed with status "
                           ++ str_of_int (status_code r)));
                  (py "details", PStr (text r)) ])
  /\ snd (streamlit_app.get_pronunciation net API_KEY word m)
     = Ok (dict_of [ (py "error",
                      PStr (py "API request failed with status "
                              ++ str_of_int (status_code r)));
                     (py "details", PStr (text r));
                     (py "word", PStr word) ]).
Proof.
  intros Hnet Hs. apply Z.eqb_neq in Hs.
  rewrite batch_get_pronunciation_run, app_get_pronunciation_run, !Hnet.
  unfold batch_outcome, app_value. rewrite Hs. split; reflexivity.
Qed.

(** X6 at the status 201 with a body that would be a complete answer. *)
Lemma other_statuses_are_failures_witness :
  snd (get_accent_word.get_pronunciation
         (always (Responds (Response 201 (text (completion_response toilet_json)))))
         (py "key") (py "toilet") (Machine tt []))
  = Ok (dict_of [ (py "error", PStr (py "API request failed with status 201"));
                  (py "details", PStr (text (completion_response toilet_json))) ])
  /\ snd (streamlit_app.get_pronunciation
            (always (Responds (Response 201 (text (completion_response toilet_json)))))
            (py "key") (py "toilet") (Machine tt []))
     = Ok (dict_of [ (py "error", PStr (py "API request failed with status 201"));
                     (py "details", PStr (text (completion_response toilet_json)));
                     (py "word", PStr (py "toilet")) ]).
Proof.
  apply (other_statuses_are_failures
           (always (Responds (Response 201 (text (completion_response toilet_json)))))
           (py "key") (py "toilet") (Machine tt [])
           (Response 201 (text (completion_response toilet_json)))).
  - intros req. reflexivity.
  - discriminate.
Defined.



(** *** The batch runner *)


(** One turn of a [for] loop. *)
Lemma for_each_cons {V A} (x : A) (rest : list A) (body : A -> M V unit)
      (m : machine V) :
  for_each (x :: rest) body m
  = match body x m with
    | (m', Ok _) => for_each rest body m'
    | (m', Raised e) => (m', Raised e)
    | (m', Stopped) => (m', Stopped)
    end.
Proof. reflexivity. Qed.








(** *** The configuration check *)


(** *** The loop of the form *)

Lemma posts_app (tr1 tr2 : list event) : posts (tr1 ++ tr2) = posts tr1 ++ posts tr2.
Proof. unfold posts. apply flat_map_app. Qed.

Lemma posts_of_requests (reqs : list request) : posts (map EvPost reqs) = reqs.
Proof.
  induction reqs as [| r rest IH]; [reflexivity |].
  cbn [map]. change (posts (EvPost r :: map EvPost rest))
    with (r :: posts (map EvPost rest)). rewrite IH. reflexivity.
Qed.

Lemma all_outputs_record_output (w : pystr) (output : pyval) (l : streamlit_app.locals) :
  streamlit_app.all_outputs (record_output w output l)
  = streamlit_app.all_outputs l ++ entries_of w output.
Proof.
  unfold record_output, entries_of.
  destruct (contains_str (py "error") output) as [e | []];
    cbn [streamlit_app.count_failed streamlit_app.count_successful
         streamlit_app.append_output streamlit_app.all_outputs];
    rewrite <- ?app_assoc; reflexivity.
Qed.

Lemma counters_record_output (w : pystr) (output : pyval) (l : streamlit_app.locals) :
  streamlit_app.successful_conversions (record_output w output l)
  = streamlit_app.successful_conversions l
    + (if counts_as_success output then 1 else 0)
  /\ streamlit_app.failed_conversions (record_output w output l)
     = streamlit_app.failed_conversions l
       + (if counts_as_success output then 0 else 1).
Proof.
  unfold record_output, counts_as_success.
  destruct (contains_str (py "error") output) as [e | []];
    cbn [streamlit_app.count_failed streamlit_app.count_successful
         streamlit_app.append_output streamlit_app.successful_conversions
         streamlit_app.failed_conversions]; lia.
Qed.

(** The loop of the form over any word list: one request per word, in the
    order of the words, the entries of the words appended in that order,
    and every word counted once. *)
Lemma form_loop_run (net : network) (API_KEY : pystr) (ws : list pystr) :
  forall m : machine streamlit_app.locals,
  exists l',
    for_each ws (streamlit_app.process_word net API_KEY) m
    = (Machine l' (trace m ++ map EvPost (map (app_request API_KEY) ws)), Ok tt)
    /\ streamlit_app.all_outputs l'
       = streamlit_app.all_outputs (vars m)
         ++ recorded_entries net API_KEY (length (posts (trace m))) ws
    /\ streamlit_app.successful_conversions l'
       = streamlit_app.successful_conversions (vars m)
         + length (filter counts_as_success
                          (fetched_values net API_KEY (length (posts (trace m))) ws))
    /\ streamlit_app.failed_conversions l'
       = streamlit_app.failed_conversions (vars m)
         + length (filter (fun v => negb (counts_as_success v))
                          (fetched_values net API_KEY (length (posts (trace m))) ws)).
Proof.
  induction ws as [| w rest IH]; intros m.
  - exists (vars m). cbn. rewrite !app_nil_r, !Nat.add_0_r.
    destruct m; repeat split; reflexivity.
  - rewrite for_each_cons, process_word_run.
    destruct (IH (Machine
       (record_output w
          (app_value w (net (length (posts (trace m))) (app_request API_KEY w)))
          (vars m))
       (trace m ++ [EvPost (app_request API_KEY w)])))
      as (l' & Hrun & Hout & Hs & Hf).
    exists l'. rewrite Hrun. cbn [vars trace] in *.
    rewrite posts_snoc, length_app in *. cbn [length] in *.
    rewrite Nat.add_1_r in *.
    destruct (counters_record_output w
                (app_value w (net (length (posts (trace m))) (app_request API_KEY w)))
                (vars m)) as [Cs Cf].
    split; [rewrite <- app_assoc; reflexivity |].
    split; [rewrite Hout, all_outputs_record_output; cbn [recorded_entries];
            rewrite <- app_assoc; reflexivity |].
    cbn [fetched_values filter].
    destruct (counts_as_success _); cbn [negb length] in *; lia.
Qed.



(** A run of the form with the credential set and the button pressed on an
    input with a word in it. *)
Lemma form_main_run (net : network) (API_KEY : pystr) (u : streamlit_app.ui)
      (l0 : streamlit_app.locals) :
  str_truthy API_KEY = true ->
  streamlit_app.convert_clicked u = true ->
  streamlit_app.words (streamlit_app.words_input u) <> [] ->
  exists lf,
    run (streamlit_app.main net (Some API_KEY) u) l0
    = (Machine lf
         ([ EvStPageConfig (py "English to Telugu Pronunciation") (py "centered");
            EvStTitle (py "English to Telugu Pronunciation Converter");
            EvStWrite (py "Enter English words (comma-separated) to get their pronunciation in English and Telugu:");
            EvStTextArea (py "Words") (py "toilet, computer, water");
            EvStButton (py "Convert");
            EvStSpinner (py "Processing...") ]
          ++ map EvPost (map (app_request API_KEY)
                             (streamlit_app.words (streamlit_app.words_input u)))
          ++ results_display
               (length (streamlit_app.words (streamlit_app.words_input u))) lf
          ++ [EvStSidebar]),
       Ok tt)
    /\ streamlit_app.all_outputs lf
       = recorded_entries net API_KEY 0
           (streamlit_app.words (streamlit_app.words_input u))
    /\ streamlit_app.successful_conversions lf
       = length (filter counts_as_success
                   (fetched_values net API_KEY 0
                      (streamlit_app.words (streamlit_app.words_input u))))
    /\ streamlit_app.failed_conversions lf
       = length (filter (fun v => negb (counts_as_success v))
                   (fetched_values net API_KEY 0
                      (streamlit_app.words (streamlit_app.words_input u)))).
Proof.
  intros Hk Hc Hne. unfold run, streamlit_app.main. cbn [env_truthy].
  rewrite Hk. cbn [negb].
  unfold streamlit_app.page, bind, emit. cbn [vars trace app]. rewrite Hc.
  unfold streamlit_app.on_convert.
  destruct (streamlit_app.words (streamlit_app.words_input u)) as [| w ws] eqn:Ew;
    [congruence |].
  unfold bind, emit, modify_vars, get_vars. cbn [vars trace app].
  match goal with
  | |- context [for_each ?l ?f ?m0] =>
    destruct (form_loop_run net API_KEY l m0) as (l' & Hrun & Hout & Hs & Hf)
  end.
  rewrite Hrun. cbn [vars trace app] in *.
  exists l'. split; [| exact (conj Hout (conj Hs Hf))].
  unfold results_display. rewrite <- !app_assoc. reflexivity.
Qed.

(** X11: the requests of a run of the form, for every credential, input
    and network.  With the credential set and the button pressed, the form
    sends exactly one request per word of the input, in the order of the
    words, each with the timeout of 30 seconds; a word entered twice is
    requested twice.  Without the credential, or when the button was not
    pressed, it sends none. *)
Theorem form_requests_follow_the_words
        (net : network) (env_API_KEY : option pystr) (u : streamlit_app.ui)
        (l0 : streamlit_app.locals) :
  posts (trace (fst (run (streamlit_app.main net env_API_KEY u) l0)))
  = match env_API_KEY with
    | Some API_KEY =>
      if str_truthy API_KEY && streamlit_app.convert_clicked u
      then map (app_request API_KEY) (streamlit_app.words (streamlit_app.words_input u))
      else []
    | None => []
    end
  /\ (forall API_KEY w,
        timeout (app_request API_KEY w) = Some 30%Z).
Proof.
  split; [| reflexivity].
  destruct (env_truthy env_API_KEY) eqn:Hk.
  - destruct env_API_KEY as [API_KEY |]; [| discriminate]. cbn [env_truthy] in Hk.
    rewrite Hk. cbn [andb].
    destruct (streamlit_app.convert_clicked u) eqn:Hc.
    + destruct (streamlit_app.words (streamlit_app.words_input u)) as [| w ws] eqn:Ew.
      * unfold run, streamlit_app.main. cbn [env_truthy]. rewrite Hk. cbn [negb].
        unfold streamlit_app.page, bind, emit. cbn [vars trace app]. rewrite Hc.
        rewrite (on_convert_without_words net API_KEY _ _ Ew). reflexivity.
      * assert (Hne : streamlit_app.words (streamlit_app.words_input u) <> [])
          by (rewrite Ew; discriminate).
        destruct (form_main_run net API_KEY u l0 Hk Hc Hne) as (lf & -> & _).
        cbn [fst trace]. rewrite !posts_app, posts_of_requests, Ew. cbn.
        rewrite app_nil_r. reflexivity.
    + unfold run, streamlit_app.main. cbn [env_truthy]. rewrite Hk. cbn [negb].
      unfold streamlit_app.page, bind, emit. cbn [vars trace app]. rewrite Hc.
      reflexivity.
  - destruct (missing_api_key_stops_the_run net env_API_KEY u [] l0 Hk) as [_ ->].
    destruct env_API_KEY as [API_KEY |]; [| reflexivity].
    cbn [env_truthy] in Hk. rewrite Hk. reflexivity.
Qed.






(** *** The log viewer of the sidebar *)

(** Reading the lines of a text loses nothing. *)
Lemma concat_readlines (content : pystr) : concat (readlines content) = content.
Proof.
  induction content as [| c t IH]; [reflexivity |].
  cbn [readlines]. destruct (c =? ch_newline)%N.
  - cbn [concat app]. rewrite IH. reflexivity.
  - destruct (readlines t) as [| l ls]; cbn [concat app] in *.
    + rewrite <- IH. reflexivity.
    + rewrite <- IH. reflexivity.
Qed.

Lemma full_line_cons (c : N) (l : pystr) :
  (c =? ch_newline)%N = false -> full_line l = true -> full_line (c :: l) = true.
Proof.
  intros Hc Hl. destruct l as [| d t]; [discriminate |].
  cbn [full_line] in *. rewrite Hc. exact Hl.
Qed.

Lemma open_line_cons (c : N) (l : pystr) :
  (c =? ch_newline)%N = false -> open_line l = true -> open_line (c :: l) = true.
Proof.
  intros Hc Hl. destruct l as [| d t]; [discriminate |].
  cbn [open_line forallb] in *. rewrite Hc. exact Hl.
Qed.

(** The lines read are closed lines, the last one possibly not closed. *)
Lemma readlines_well_split (content : pystr) : well_split (readlines content) = true.
Proof.
  induction content as [| c t IH]; [reflexivity |].
  cbn [readlines]. destruct (c =? ch_newline)%N eqn:Hc.
  - cbn [well_split full_line]. rewrite Hc.
    destruct (readlines t); [reflexivity | exact IH].
  - destruct (readlines t) as [| l ls].
    + cbn [well_split full_line open_line forallb]. rewrite Hc. reflexivity.
    + cbn [well_split] in *. destruct ls as [| l' ls'].
      * apply orb_true_iff in IH as [H | H].
        -- rewrite (full_line_cons c l Hc H). reflexivity.
        -- rewrite (open_line_cons c l Hc H). apply orb_true_r.
      * apply andb_true_iff in IH as [H1 H2].
        rewrite (full_line_cons c l Hc H1). exact H2.
Qed.

Lemma well_split_tail (l : pystr) (rest : list pystr) :
  well_split (l :: rest) = true -> well_split rest = true.
Proof.
  cbn [well_split]. destruct rest as [| l' rest']; [reflexivity |].
  intros H. apply andb_true_iff in H as [_ H]. exact H.
Qed.

Lemma well_split_skipn (k : nat) :
  forall ls, well_split ls = true -> well_split (skipn k ls) = true.
Proof.
  induction k as [| k IH]; intros ls H; [exact H |].
  destruct ls as [| l rest]; [reflexivity |].
  cbn [skipn]. apply IH. exact (well_split_tail l rest H).
Qed.

Lemma well_split_firstn (k : nat) :
  forall ls, well_split ls = true -> well_split (firstn k ls) = true.
Proof.
  induction k as [| k IH]; intros ls H; [reflexivity |].
  destruct ls as [| l rest]; [reflexivity |].
  cbn [firstn]. pose proof (IH rest (well_split_tail l rest H)) as Ht.
  cbn [well_split] in *. destruct rest as [| l' rest'].
  - rewrite firstn_nil. exact H.
  - apply andb_true_iff in H as [Hl _].
    destruct (firstn k (l' :: rest')); rewrite Hl; [reflexivity | exact Ht].
Qed.

Lemma readlines_full_line (l : pystr) :
  full_line l = true -> forall s, readlines (l ++ s) = l :: readlines s.
Proof.
  induction l as [| c t IH]; [discriminate |].
  intros H s. cbn [full_line] in H. destruct t as [| d t'].
  - cbn [app readlines]. rewrite H. apply N.eqb_eq in H. subst c. reflexivity.
  - apply andb_true_iff in H as [Hc Ht]. apply negb_true_iff in Hc.
    change ((c :: d :: t') ++ s) with (c :: ((d :: t') ++ s)).
    cbn [readlines]. rewrite Hc, (IH Ht s). reflexivity.
Qed.

Lemma readlines_open_line (l : pystr) :
  open_line l = true -> readlines l = [l].
Proof.
  induction l as [| c t IH]; [discriminate |].
  intros H. cbn [open_line forallb] in H.
  apply andb_true_iff in H as [Hc Ht]. apply negb_true_iff in Hc.
  cbn [readlines]. rewrite Hc. destruct t as [| d t'].
  - reflexivity.
  - rewrite (IH Ht). reflexivity.
Qed.

(** Joining lines and reading them again gives the lines. *)
Lemma readlines_concat (ls : list pystr) :
  well_split ls = true -> readlines (concat ls) = ls.
Proof.
  induction ls as [| l rest IH]; [reflexivity |].
  intros H. pose proof (well_split_tail l rest H) as Ht.
  cbn [well_split concat] in *. destruct rest as [| l' rest'].
  - cbn [concat]. rewrite app_nil_r.
    apply orb_true_iff in H as [H | H].
    + rewrite <- (app_nil_r l) at 1. rewrite (readlines_full_line l H []). reflexivity.
    + exact (readlines_open_line l H).
  - apply andb_true_iff in H as [Hl _].
    rewrite (readlines_full_line l Hl), (IH Ht). reflexivity.
Qed.

(** X14: what the log viewer shows.  For every text of the log file, the
    text shown is the end of the file - the file is the earlier text
    followed by the text shown - cut between two lines: the lines of the
    text shown are the last 20 lines of the file, or all of them when the
    file has 20 lines or fewer, and then the whole file is shown unchanged.
    An empty file gives an empty text. *)
Theorem recent_logs_are_the_last_lines (content : pystr) :
  let lines := readlines content in
  let earlier := concat (firstn (length lines - 20) lines) in
  content = earlier ++ recent_logs content
  /\ readlines earlier = firstn (length lines - 20) lines
  /\ readlines (recent_logs content) = slice_last 20 lines
  /\ length (readlines (recent_logs content)) = Nat.min 20 (length lines)
  /\ (length lines <= 20 -> recent_logs content = content)
  /\ recent_logs [] = [].
Proof.
  intros lines earlier. subst earlier. unfold recent_logs, slice_last. fold lines.
  pose proof (readlines_well_split content) as W. fold lines in W.
  assert (R : readlines (concat (skipn (length lines - 20) lines))
              = skipn (length lines - 20) lines)
    by (apply readlines_concat, well_split_skipn, W).
  split.
  { rewrite <- concat_app, firstn_skipn. symmetry. apply concat_readlines. }
  split.
  { apply readlines_concat, well_split_firstn, W. }
  split; [exact R |].
  split.
  { rewrite R, length_skipn. lia. }
  split; [| reflexivity].
  intros Hle. replace (length lines - 20) with 0 by lia.
  cbn [skipn]. apply concat_readlines.
Qed.

(** *** The logging configuration *)

(** Once the logger has a handler, configuring it again changes nothing. *)
Lemma configure_logging_again (f : pystr) (lg : logger) :
  logger_level lg = Some DEBUG -> handlers lg <> [] -> configure_logging f lg = lg.
Proof.
  intros Hl Hh. unfold configure_logging. destruct lg as [lvl hs].
  cbn [handlers logger_level] in *. subst lvl.
  destruct hs; [congruence | reflexivity].
Qed.

Lemma reruns_keep_the_logger (later : list pystr) :
  forall lg,
    logger_level lg = Some DEBUG -> handlers lg <> [] ->
    fold_left (fun lg f => configure_logging f lg) later lg = lg.
Proof.
  induction later as [| f rest IH]; intros lg Hl Hh; [reflexivity |].
  cbn [fold_left]. rewrite (configure_logging_again f lg Hl Hh). apply IH; assumption.
Qed.

(** X15: the logging configuration over the reruns of the form in one
    process.  However often the script runs, and whatever the log file name
    of the later runs is (the name holds the date of the run), the logger
    has the two handlers of the first run and no more: the file handler,
    still writing to the file of the first run, and the console handler.
    A DEBUG record goes to the file only; a record of any higher level goes
    to the file and to the console, once each. *)
Theorem logging_is_configured_once (first : pystr) (later : list pystr) :
  after_runs (first :: later) = configure_logging first new_logger
  /\ map handler_sink (handlers (after_runs (first :: later)))
     = [FileSink first; ConsoleSink]
  /\ sinks_of (after_runs (first :: later)) DEBUG = [FileSink first]
  /\ (forall l, l = INFO \/ l = WARNING \/ l = ERROR ->
        sinks_of (after_runs (first :: later)) l = [FileSink first; ConsoleSink]).
Proof.
  assert (E : after_runs (first :: later) = configure_logging first new_logger).
  { unfold after_runs. cbn [fold_left]. apply reruns_keep_the_logger.
    - reflexivity.
    - cbn. discriminate. }
  rewrite E. split; [reflexivity |]. split; [reflexivity |]. split; [reflexivity |].
  intros l [-> | [-> | ->]]; reflexivity.
Qed.

(** *** The two fetchers side by side *)


